(** * Message-passing convolutions of convdiff/pdegs/models.py

    A shallow embedding of the three edge convolutions ([EdgeConvBase],
    [EdgeConvGeom], [EdgeConvWithCtx]) and of the two models built from them
    ([MPNNModel], [M3Model]).

    Tensor entries are kept abstract: the class [Scalar] lists the arithmetic
    the layers ask of the tensor runtime (difference, quotient, row norm,
    atan2, the sum of the reducer), so every statement below holds for any
    arithmetic, rounded or exact.  Python exceptions are values of [error],
    and a call that may raise returns a [result]. *)

From Stdlib Require Import String.
From Stdlib Require PrimFloat.
From Stdlib Require Import List ZArith Bool Lia Permutation Reals Lra.
Import ListNotations.

(** ** Exceptions *)

Inductive error : Set :=
| NameError      (* raised by EdgeConvBase.message on an unknown neighbor_loc *)
| IndexError     (* an index outside the indexed dimension *)
| ValueError     (* torch_geometric: tensors of different node counts *)
| RuntimeError.  (* torch: shapes that do not fit *)

Inductive result (A : Type) : Type :=
| Ok (a : A)
| Err (e : error).
Arguments Ok {A} a.
Arguments Err {A} e.

Definition bind {A B : Type} (r : result A) (k : A -> result B) : result B :=
  match r with
  | Ok a => k a
  | Err e => Err e
  end.

Notation "x <- r ;; k" := (bind r (fun x => k))
  (at level 61, r at next level, right associativity).

(** ** Scalars *)

Class Scalar (T : Type) : Type := {
  tzero : T;                 (* 0. *)
  tadd : T -> T -> T;        (* a + b *)
  tsub : T -> T -> T;        (* a - b *)
  tdiv : T -> T -> T;        (* a / b *)
  tnorm : list T -> T;       (* the 2-norm of one row, Tensor.norm(dim=1) *)
  tatan2 : T -> T -> T;      (* torch.atan2(y, x) *)
  tcount : nat -> T          (* a count as a scalar *)
}.

(** ** Tensors *)

(** A tensor of rank one or more, by its first dimension: [items] has one
    entry per index of dimension 0, each the row-major entries of that item,
    and [item_shape] is the shape of an item.  A flat sequence of N entries
    has [item_shape = []] and N one-entry items; an N x W tensor has
    [item_shape = [W]]. *)
Record tensor (T : Type) : Type := {
  item_shape : list nat;
  items : list (list T)
}.
Arguments item_shape {T} t.
Arguments items {T} t.

(** A rank-2 tensor: positions, contexts, messages, aggregates. *)
Record matrix (T : Type) : Type := {
  ncols : nat;
  rows : list (list T)
}.
Arguments ncols {T} m.
Arguments rows {T} m.

(** The edge index, a 2 x E integer tensor, by its columns: the pair
    [(edge_index[0][k], edge_index[1][k])] of edge k. *)
Definition edge_index : Type := list (Z * Z).

Definition row0 (ei : edge_index) : list Z := map fst ei.
Definition row1 (ei : edge_index) : list Z := map snd ei.

(** [edge_index.long()]: the entries are already integers, the conversion to
    64-bit integers keeps them. *)
Definition long (ei : edge_index) : edge_index := ei.

Fixpoint zip_with {A B C : Type} (f : A -> B -> C) (l : list A) (l' : list B) : list C :=
  match l, l' with
  | a :: t, b :: t' => f a b :: zip_with f t t'
  | _, _ => []
  end.

Definition in_range (n : nat) (k : Z) : bool :=
  (0 <=? k)%Z && (k <? Z.of_nat n)%Z.

(** The row of node [k], empty outside the tensor. *)
Definition item_at {A : Type} (l : list (list A)) (k : Z) : list A :=
  if in_range (length l) k then nth (Z.to_nat k) l [] else [].

Module Torch.
Section Ops.
Context {T : Type} `{Scalar T}.

Definition dim (x : tensor T) : nat := S (length (item_shape x)).
Definition size0 (x : tensor T) : nat := length (items x).
Definition nrows (m : matrix T) : nat := length (rows m).

(** A flat sequence as a rank-1 tensor. *)
Definition vector (v : list T) : tensor T :=
  {| item_shape := []; items := map (fun a => [a]) v |}.

Definition of_matrix (m : matrix T) : tensor T :=
  {| item_shape := [ncols m]; items := rows m |}.

(** [x.unsqueeze(-1)]: a last dimension of size one, same entries. *)
Definition unsqueeze_last (x : tensor T) : tensor T :=
  {| item_shape := item_shape x ++ [1]; items := items x |}.

(** The rank-2 reading that [torch.cat(..., dim=1)] with a rank-2 operand
    asks of every operand. *)
Definition as_matrix (x : tensor T) : result (matrix T) :=
  match item_shape x with
  | [w] => Ok {| ncols := w; rows := items x |}
  | _ => Err RuntimeError
  end.

(** [index_select(0, idx)]: every index must lie in [0, N). *)
Fixpoint index_select (l : list (list T)) (idx : list Z) : result (list (list T)) :=
  match idx with
  | [] => Ok []
  | k :: idx' =>
      if in_range (length l) k
      then r <- index_select l idx' ;; Ok (nth (Z.to_nat k) l [] :: r)
      else Err IndexError
  end.

Definition vsub (a b : list T) : list T := zip_with tsub a b.
Definition vadd (a b : list T) : list T := zip_with tadd a b.

(** [a - b] on two tensors of one shape, as the two gathers of one node
    tensor are; the broadcast of different shapes is not modelled. *)
Definition sub (a b : matrix T) : matrix T :=
  {| ncols := ncols a; rows := zip_with vsub (rows a) (rows b) |}.

Definition sub_tensor (a b : tensor T) : tensor T :=
  {| item_shape := item_shape a; items := zip_with vsub (items a) (items b) |}.

(** [m.norm(dim=1)], a flat sequence with one norm per row. *)
Definition norm_dim1 (m : matrix T) : list T := map tnorm (rows m).

(** [v.view(-1, 1)] and [v.reshape(-1, 1)] of a flat sequence. *)
Definition view_col (v : list T) : matrix T :=
  {| ncols := 1; rows := map (fun a => [a]) v |}.

(** [m / c] with [c] of shape E x 1: each row is divided by its entry of [c]. *)
Definition div_col (m c : matrix T) : matrix T :=
  {| ncols := ncols m;
     rows := zip_with (fun r d => match d with
                                  | q :: _ => map (fun a => tdiv a q) r
                                  | [] => r
                                  end) (rows m) (rows c) |}.

(** [m[:, k]] *)
Definition select_col (m : matrix T) (k : nat) : result (list T) :=
  if k <? ncols m then Ok (map (fun r => nth k r tzero) (rows m))
  else Err IndexError.

Definition atan2 (ys xs : list T) : list T := zip_with tatan2 ys xs.

Definition hstack (a b : matrix T) : matrix T :=
  {| ncols := ncols a + ncols b; rows := zip_with (@app T) (rows a) (rows b) |}.

(** [torch.cat(ts, dim=1)] where one operand at least has rank 2, as in
    every call of the layers: all operands must have rank 2 and the same
    number of rows.  The kind of the error is the one of operands of rank 2
    or more; a first operand of rank 1 is refused here as well, under the
    same name. *)
Fixpoint cat (ts : list (tensor T)) : result (matrix T) :=
  match ts with
  | [] => Err RuntimeError
  | t :: ts' =>
      m <- as_matrix t ;;
      match ts' with
      | [] => Ok m
      | _ :: _ =>
          r <- cat ts' ;;
          if nrows m =? nrows r then Ok (hstack m r) else Err RuntimeError
      end
  end.
End Ops.
End Torch.

(** ** The inherited propagate

    The layers inherit [propagate] from the MessagePassing class of
    torch_geometric, which is not among the sources: it gathers the rows of
    every [_i] / [_j] argument of [message] along the edge index, calls
    [message], reduces the messages per node and calls [update].  With
    [flow="target_to_source"] the [_i] rows and the reduction use
    [edge_index[0]], the [_j] rows [edge_index[1]]. *)

Inductive reducer : Set :=
| Mean   (* aggr='mean', the default of the layers *)
| Add.   (* aggr='add' *)

Module MessagePassing.
Section Propagate.
Context {T : Type} `{Scalar T}.

(** Modelled from the spec: the size check of the inherited propagate
    (every node tensor has one row per node).  The node count is set by the
    first gathered tensor; a later one with another count is refused.  The
    count is the first dimension, which is the node dimension of tensors of
    rank 1 and 2. *)
Definition set_size (expected actual : nat) : result unit :=
  if expected =? actual then Ok tt else Err ValueError.

(** Modelled from the spec: the gather of the inherited propagate, the rows
    of a node tensor along one row of the edge index, taken along the first
    dimension, which is the node dimension of tensors of rank 1 and 2. *)
Definition lift (x : tensor T) (idx : list Z) : result (tensor T) :=
  its <- Torch.index_select (items x) idx ;;
  Ok {| item_shape := item_shape x; items := its |}.

(** Modelled from the spec: the same gather on a rank-2 tensor. *)
Definition lift_matrix (m : matrix T) (idx : list Z) : result (matrix T) :=
  rs <- Torch.index_select (rows m) idx ;;
  Ok {| ncols := ncols m; rows := rs |}.

(** Modelled from the spec: the messages the inherited reducer combines for
    node [n], those of the edges listed with [n] first, in edge order. *)
Fixpoint incident (n : nat) (idx : list Z) (src : list (list T)) : list (list T) :=
  match idx, src with
  | k :: idx', r :: src' =>
      if (k =? Z.of_nat n)%Z then r :: incident n idx' src' else incident n idx' src'
  | _, _ => []
  end.

(** Modelled from the spec: the inherited reducer for one node.  The
    messages are added to a zero row, and for the mean the sum is divided by
    their number, taken as one for a node without edges, which keeps the
    zero row. *)
Definition reduce (r : reducer) (w : nat) (sel : list (list T)) : list T :=
  let s := fold_left Torch.vadd sel (repeat tzero w) in
  match r with
  | Add => s
  | Mean => map (fun a => tdiv a (tcount (Nat.max 1 (length sel)))) s
  end.

(** Modelled from the spec: the aggregate step of the inherited propagate,
    one reduced row per node, for messages that come one per edge. *)
Definition aggregate (r : reducer) (inputs : matrix T) (index : list Z) (dim_size : nat)
  : result (matrix T) :=
  if Torch.nrows inputs =? length index
  then Ok {| ncols := ncols inputs;
             rows := map (fun n => reduce r (ncols inputs) (incident n index (rows inputs)))
                         (seq 0 dim_size) |}
  else Err RuntimeError.
End Propagate.
End MessagePassing.

(** ** The layers *)

(** What [EdgeConvBase.__init__] stores; the two subclasses inherit it. *)
Record EdgeConv (T : Type) : Type := {
  msg_net : matrix T -> matrix T;
  aggr_net : matrix T -> matrix T;
  aggr : reducer;
  neighbor_loc : string;
  self_val : bool
}.
Arguments msg_net {T} e.
Arguments aggr_net {T} e.
Arguments aggr {T} e.
Arguments neighbor_loc {T} e.
Arguments self_val {T} e.

Module EdgeConvBase.
Section Layer.
Context {T : Type} `{Scalar T}.

Definition init (msg_net aggr_net : matrix T -> matrix T) (aggr : reducer)
    (neighbor_loc : string) (self_val : bool) : EdgeConv T :=
  {| msg_net := msg_net; aggr_net := aggr_net; aggr := aggr;
     neighbor_loc := neighbor_loc; self_val := self_val |}.

(** The defaults of the keyword arguments. *)
Definition default_aggr : reducer := Mean.
Definition default_neighbor_loc : string := "position"%string.
Definition default_self_val : bool := true.

(** The local [inputs] of [message]. *)
Definition message_inputs (self : EdgeConv T) (x_i x_j : tensor T) (pos_i pos_j : matrix T)
  : result (matrix T) :=
  if (neighbor_loc self =? "distance")%string then
    let dist := Torch.view_col (Torch.norm_dim1 (Torch.sub pos_j pos_i)) in
    Torch.cat [x_i; x_j; Torch.of_matrix dist]
  else if (neighbor_loc self =? "position")%string then
    Torch.cat [x_i; x_j; Torch.of_matrix (Torch.sub pos_j pos_i)]
  else if (neighbor_loc self =? "radial")%string then
    let dist := Torch.view_col (Torch.norm_dim1 (Torch.sub pos_j pos_i)) in
    let pos_vec := Torch.sub pos_j pos_i in
    ys <- Torch.select_col pos_vec 1 ;;
    xs <- Torch.select_col pos_vec 0 ;;
    let angle := Torch.view_col (Torch.atan2 ys xs) in
    Torch.cat [x_i; x_j; Torch.of_matrix dist; Torch.of_matrix angle]
  else Err NameError.

Definition message (self : EdgeConv T) (x_i x_j : tensor T) (pos_i pos_j : matrix T)
  : result (matrix T) :=
  inputs <- message_inputs self x_i x_j pos_i pos_j ;;
  Ok (msg_net self inputs).

(** The local [inp] of [update]. *)
Definition update_inputs (self : EdgeConv T) (aggr_out : matrix T) (x : tensor T)
  : result (matrix T) :=
  if self_val self then Torch.cat [x; Torch.of_matrix aggr_out]
  else Ok aggr_out.

Definition update (self : EdgeConv T) (aggr_out : matrix T) (x : tensor T)
  : result (matrix T) :=
  inp <- update_inputs self aggr_out x ;;
  Ok (aggr_net self inp).

(** Modelled from the spec: what the inherited propagate hands to [message],
    the arguments [x_i], [x_j], [pos_i], [pos_j] gathered in this order. *)
Definition collect (edge_index : edge_index) (x : tensor T) (pos : matrix T)
  : result (tensor T * tensor T * matrix T * matrix T) :=
  x_i <- MessagePassing.lift x (row0 edge_index) ;;
  x_j <- MessagePassing.lift x (row1 edge_index) ;;
  _ <- MessagePassing.set_size (Torch.size0 x) (Torch.nrows pos) ;;
  pos_i <- MessagePassing.lift_matrix pos (row0 edge_index) ;;
  pos_j <- MessagePassing.lift_matrix pos (row1 edge_index) ;;
  Ok (x_i, x_j, pos_i, pos_j).

(** Modelled from the spec: [self.propagate(edge_index, x=x, pos=pos)],
    the inherited gather, message, aggregate, update sequence. *)
Definition propagate (self : EdgeConv T) (edge_index : edge_index) (x : tensor T)
    (pos : matrix T) : result (matrix T) :=
  args <- collect edge_index x pos ;;
  let '(x_i, x_j, pos_i, pos_j) := args in
  out <- message self x_i x_j pos_i pos_j ;;
  aggr_out <- MessagePassing.aggregate (aggr self) out (row0 edge_index) (Torch.size0 x) ;;
  update self aggr_out x.

Definition forward (self : EdgeConv T) (x : tensor T) (edge_index : edge_index)
    (pos : matrix T) : result (matrix T) :=
  let x := if Torch.dim x =? 1 then Torch.unsqueeze_last x else x in
  propagate self edge_index x pos.
End Layer.
End EdgeConvBase.

Module EdgeConvGeom.
Section Layer.
Context {T : Type} `{Scalar T}.

Definition message_inputs (pos_i pos_j : matrix T) : result (matrix T) :=
  let distances := Torch.view_col (Torch.norm_dim1 (Torch.sub pos_j pos_i)) in
  let positions := Torch.div_col (Torch.sub pos_j pos_i) distances in
  Torch.cat [Torch.of_matrix distances; Torch.of_matrix positions].

Definition message (self : EdgeConv T) (pos_i pos_j : matrix T) : result (matrix T) :=
  inputs <- message_inputs pos_i pos_j ;;
  Ok (msg_net self inputs).

Definition update (self : EdgeConv T) (aggr_out : matrix T) : result (matrix T) :=
  Ok (aggr_net self aggr_out).

(** Modelled from the spec: what the inherited propagate hands to [message],
    the arguments [pos_i] and [pos_j]. *)
Definition collect (edge_index : edge_index) (pos : matrix T)
  : result (matrix T * matrix T) :=
  pos_i <- MessagePassing.lift_matrix pos (row0 edge_index) ;;
  pos_j <- MessagePassing.lift_matrix pos (row1 edge_index) ;;
  Ok (pos_i, pos_j).

(** Modelled from the spec: [self.propagate(edge_index, pos=pos)]. *)
Definition propagate (self : EdgeConv T) (edge_index : edge_index) (pos : matrix T)
  : result (matrix T) :=
  args <- collect edge_index pos ;;
  let '(pos_i, pos_j) := args in
  out <- message self pos_i pos_j ;;
  aggr_out <- MessagePassing.aggregate (aggr self) out (row0 edge_index) (Torch.nrows pos) ;;
  update self aggr_out.

Definition forward (self : EdgeConv T) (edge_index : edge_index) (pos : matrix T)
  : result (matrix T) :=
  propagate self edge_index pos.
End Layer.
End EdgeConvGeom.

Module EdgeConvWithCtx.
Section Layer.
Context {T : Type} `{Scalar T}.

Definition message_inputs (x_i x_j : tensor T) (pos_i pos_j ctx_i : matrix T)
  : result (matrix T) :=
  let distances := Torch.view_col (Torch.norm_dim1 (Torch.sub pos_j pos_i)) in
  let positions := Torch.div_col (Torch.sub pos_j pos_i) distances in
  Torch.cat [x_i; Torch.sub_tensor x_j x_i; Torch.of_matrix distances;
             Torch.of_matrix positions; Torch.of_matrix ctx_i].

Definition message (self : EdgeConv T) (x_i x_j : tensor T) (pos_i pos_j ctx_i : matrix T)
  : result (matrix T) :=
  inputs <- message_inputs x_i x_j pos_i pos_j ctx_i ;;
  Ok (msg_net self inputs).

(** The local [inputs] of [update]. *)
Definition update_inputs (aggr_out : matrix T) (ctx : matrix T) : result (matrix T) :=
  Torch.cat [Torch.of_matrix aggr_out; Torch.of_matrix ctx].

Definition update (self : EdgeConv T) (aggr_out : matrix T) (x : tensor T)
    (pos ctx : matrix T) : result (matrix T) :=
  inputs <- update_inputs aggr_out ctx ;;
  Ok (aggr_net self inputs).

(** Modelled from the spec: what the inherited propagate hands to [message],
    the arguments [x_i], [x_j], [pos_i], [pos_j], [ctx_i] gathered in this
    order. *)
Definition collect (edge_index : edge_index) (x : tensor T) (pos ctx : matrix T)
  : result (tensor T * tensor T * matrix T * matrix T * matrix T) :=
  x_i <- MessagePassing.lift x (row0 edge_index) ;;
  x_j <- MessagePassing.lift x (row1 edge_index) ;;
  _ <- MessagePassing.set_size (Torch.size0 x) (Torch.nrows pos) ;;
  pos_i <- MessagePassing.lift_matrix pos (row0 edge_index) ;;
  pos_j <- MessagePassing.lift_matrix pos (row1 edge_index) ;;
  _ <- MessagePassing.set_size (Torch.size0 x) (Torch.nrows ctx) ;;
  ctx_i <- MessagePassing.lift_matrix ctx (row0 edge_index) ;;
  Ok (x_i, x_j, pos_i, pos_j, ctx_i).

(** Modelled from the spec: [self.propagate(edge_index, x=x, pos=pos, ctx=ctx)]. *)
Definition propagate (self : EdgeConv T) (edge_index : edge_index) (x : tensor T)
    (pos ctx : matrix T) : result (matrix T) :=
  args <- collect edge_index x pos ctx ;;
  let '(x_i, x_j, pos_i, pos_j, ctx_i) := args in
  out <- message self x_i x_j pos_i pos_j ctx_i ;;
  aggr_out <- MessagePassing.aggregate (aggr self) out (row0 edge_index) (Torch.size0 x) ;;
  update self aggr_out x pos ctx.

Definition forward (self : EdgeConv T) (x : tensor T) (edge_index : edge_index)
    (pos ctx : matrix T) : result (matrix T) :=
  let x := if Torch.dim x =? 1 then Torch.unsqueeze_last x else x in
  propagate self edge_index x pos ctx.
End Layer.
End EdgeConvWithCtx.

(** ** The models *)

Module MPNNModel.
Section Model.
Context {T : Type} `{Scalar T}.

Record t : Type := { L1 : EdgeConv T }.

Definition init (msg_net aggr_net : matrix T -> matrix T) : t :=
  {| L1 := EdgeConvBase.init msg_net aggr_net Mean "position"%string true |}.

Definition forward (self : t) (x : tensor T) (edge_index : edge_index) (pos : matrix T)
  : result (matrix T) :=
  EdgeConvBase.forward (L1 self) x (long edge_index) pos.
End Model.
End MPNNModel.

Module M3Model.
Section Model.
Context {T : Type} `{Scalar T}.

Record t : Type := { L1 : EdgeConv T; L2 : EdgeConv T }.

Definition init (L1_msg_net L1_aggr_net L2_msg_net L2_aggr_net : matrix T -> matrix T) : t :=
  {| L1 := EdgeConvBase.init L1_msg_net L1_aggr_net Mean
             EdgeConvBase.default_neighbor_loc EdgeConvBase.default_self_val;
     L2 := EdgeConvBase.init L2_msg_net L2_aggr_net Mean
             EdgeConvBase.default_neighbor_loc EdgeConvBase.default_self_val |}.

Definition forward (self : t) (x : tensor T) (edge_index : edge_index) (pos : matrix T)
  : result (matrix T) :=
  context <- EdgeConvGeom.forward (L1 self) (long edge_index) pos ;;
  EdgeConvWithCtx.forward (L2 self) x (long edge_index) pos context.
End Model.
End M3Model.


(** ** The specification's reading of the layers *)

Module Spec.
Section Reading.
Context {T : Type} `{Scalar T}.

(** The feature vector and the position of a node. *)
Definition feature (x : tensor T) (i : Z) : list T := item_at (items x) i.
Definition position (pos : matrix T) (i : Z) : list T := item_at (rows pos) i.

(** position_j - position_i, its norm and its angle. *)
Definition delta (pos : matrix T) (i j : Z) : list T :=
  Torch.vsub (position pos j) (position pos i).
Definition distance (pos : matrix T) (i j : Z) : T := tnorm (delta pos i j).
Definition angle (pos : matrix T) (i j : Z) : T :=
  tatan2 (nth 1 (delta pos i j) tzero) (nth 0 (delta pos i j) tzero).
Definition unit_direction (pos : matrix T) (i j : Z) : list T :=
  map (fun c => tdiv c (distance pos i j)) (delta pos i j).

(** The message input of the edge (i -> j) in the three modes of the generic
    convolution. *)
Definition position_input (x : tensor T) (pos : matrix T) (e : Z * Z) : list T :=
  feature x (fst e) ++ feature x (snd e) ++ delta pos (fst e) (snd e).
Definition distance_input (x : tensor T) (pos : matrix T) (e : Z * Z) : list T :=
  feature x (fst e) ++ feature x (snd e) ++ [distance pos (fst e) (snd e)].
Definition radial_input (x : tensor T) (pos : matrix T) (e : Z * Z) : list T :=
  feature x (fst e) ++ feature x (snd e)
    ++ [distance pos (fst e) (snd e)] ++ [angle pos (fst e) (snd e)].

(** The message input of the edge (i -> j) in the geometric and in the
    context convolution. *)
Definition geometric_input (pos : matrix T) (e : Z * Z) : list T :=
  [distance pos (fst e) (snd e)] ++ unit_direction pos (fst e) (snd e).
Definition context_input (x : tensor T) (pos ctx : matrix T) (e : Z * Z) : list T :=
  feature x (fst e) ++ Torch.vsub (feature x (snd e)) (feature x (fst e))
    ++ [distance pos (fst e) (snd e)] ++ unit_direction pos (fst e) (snd e)
    ++ position ctx (fst e).

(** The rows propagate gathers along one side of the edges. *)
Definition gather_features (x : tensor T) (side : Z * Z -> Z) (ei : edge_index) : tensor T :=
  {| item_shape := item_shape x; items := map (fun e => feature x (side e)) ei |}.
Definition gather_rows (m : matrix T) (side : Z * Z -> Z) (ei : edge_index) : matrix T :=
  {| ncols := ncols m; rows := map (fun e => position m (side e)) ei |}.

(** Every endpoint of every edge names one of the [n] nodes. *)
Definition edges_in_range (n : nat) (ei : edge_index) : bool :=
  forallb (fun e => in_range n (fst e) && in_range n (snd e)) ei.

(** A network that maps each row on its own: a function from a vector of a
    fixed width to a vector of a fixed width. *)
Definition rowwise (net : matrix T -> matrix T) : Prop :=
  exists (w : nat -> nat) (f : list T -> list T),
    forall m, net m = {| ncols := w (ncols m); rows := map f (rows m) |}.

(** The two layers of M3Model called by hand, one after the other. *)
Definition manual_sequence (L1 L2 : EdgeConv T) (x : tensor T) (ei : edge_index)
    (pos : matrix T) : result (matrix T) :=
  match EdgeConvGeom.forward L1 ei pos with
  | Ok context => EdgeConvWithCtx.forward L2 x ei pos context
  | Err e => Err e
  end.

(** The inputs the generic convolution is meant for: features of rank 1 or
    2 with one row per node, as many positions, edges between these nodes, a
    known mode, and two coordinates at least where the angle is taken. *)
Definition known_mode (mode : string) (pos : matrix T) : bool :=
  (mode =? "distance")%string || (mode =? "position")%string
  || ((mode =? "radial")%string && (2 <=? ncols pos)).

Definition valid_input (self : EdgeConv T) (x : tensor T) (ei : edge_index)
    (pos : matrix T) : bool :=
  (Torch.dim x <=? 2) && (Torch.size0 x =? Torch.nrows pos)
  && edges_in_range (Torch.size0 x) ei && known_mode (neighbor_loc self) pos.
End Reading.
End Spec.

(** ** Node by node *)

Module Node.
Section Reading.
Context {T : Type} `{Scalar T}.

(** The edges listed with node [n] first, in the order of the edge list. *)
Definition edges_from (n : nat) (ei : edge_index) : edge_index :=
  filter (fun e => (fst e =? Z.of_nat n)%Z) ei.

(** The tensor of the reduced messages: row [n] combines the messages [h e]
    of the edges [e] listed with [n] first. *)
Definition aggregated (r : reducer) (W N : nat) (h : Z * Z -> list T) (ei : edge_index)
  : matrix T :=
  {| ncols := W;
     rows := map (fun n => MessagePassing.reduce r W (map h (edges_from n ei)))
                 (seq 0 N) |}.

(** The message input of an edge and its width in a known mode of the
    generic convolution. *)
Definition base_input (mode : string) (x : tensor T) (pos : matrix T) (e : Z * Z)
  : list T :=
  if (mode =? "distance")%string then Spec.distance_input x pos e
  else if (mode =? "position")%string then Spec.position_input x pos e
  else Spec.radial_input x pos e.

Definition base_width (mode : string) (F D : nat) : nat :=
  if (mode =? "distance")%string then F + (F + 1)
  else if (mode =? "position")%string then F + (F + D)
  else F + (F + (1 + 1)).

(** Features of rank 1 or 2 as the N x F tensor forward works with. *)
Definition feature_width (x : tensor T) : nat :=
  match item_shape x with
  | [F] => F
  | _ => 1
  end.
Definition features_matrix (x : tensor T) : matrix T :=
  {| ncols := feature_width x; rows := items x |}.

(** Every row has as many entries as the tensor has columns. *)
Definition well_formed (m : matrix T) : bool :=
  forallb (fun r => length r =? ncols m) (rows m).

(** All positions moved by the same vector [t]. *)
Definition translate (t : list T) (pos : matrix T) : matrix T :=
  {| ncols := ncols pos; rows := map (fun r => Torch.vadd r t) (rows pos) |}.
End Reading.
End Node.

(** ** Exact arithmetic *)

Module RealArith.
Local Open Scope R_scope.

Definition Rnorm (r : list R) : R :=
  sqrt (fold_right (fun a s => a * a + s) 0 r).

Definition Ratan2 (y x : R) : R :=
  if Rlt_dec 0 x then atan (y / x)
  else if Rlt_dec x 0 then
    (if Rle_dec 0 y then atan (y / x) + PI else atan (y / x) - PI)
  else if Rlt_dec 0 y then PI / 2
  else if Rlt_dec y 0 then - (PI / 2)
  else 0.

#[export] Instance RScalar : Scalar R := {|
  tzero := 0;
  tadd := Rplus;
  tsub := Rminus;
  tdiv := Rdiv;
  tnorm := Rnorm;
  tatan2 := Ratan2;
  tcount := INR
|}.

(** Three nodes at (0,0), (1,0), (0,1) with one feature each, the edges
    (0 -> 1) and (0 -> 2), and networks that return their input. *)
Definition pos3 : matrix R := {| ncols := 2; rows := [[0; 0]; [1; 0]; [0; 1]] |}.
Definition x3 : tensor R := Torch.vector [5; 7; 9].
Definition edges3 : edge_index := [(0, 1); (0, 2)]%Z.
Definition identity (m : matrix R) : matrix R := m.
Definition layer3 (mode : string) (self_val : bool) : EdgeConv R :=
  EdgeConvBase.init identity identity Mean mode self_val.

Definition ctx3 : matrix R := {| ncols := 1; rows := [[2]; [4]; [6]] |}.
Definition edges3_swapped : edge_index := [(0, 2); (0, 1)]%Z.

(** Two nodes at the same place, joined by an edge. *)
Definition pos_twin : matrix R := {| ncols := 2; rows := [[1; 2]; [1; 2]] |}.
Definition x_twin : tensor R := Torch.vector [5; 7].
Definition ctx_twin : matrix R := {| ncols := 1; rows := [[3]; [4]] |}.
Definition edges_twin : edge_index := [(0, 1)]%Z.
(** Positions on a line, features of rank 3, an edge list with one more
    edge out of node 1, and a translation. *)
Definition pos_line : matrix R := {| ncols := 1; rows := [[0]; [1]; [2]] |}.
Definition x_rank3 : tensor R :=
  {| item_shape := [1; 1]%nat; items := [[5]; [7]; [9]] |}.
Definition edges3_more : edge_index := [(0, 1); (1, 2); (0, 2)]%Z.
Definition shift : list R := [10; 20].
Definition m3 : M3Model.t := M3Model.init identity identity identity identity.
Definition m3_polar : M3Model.t :=
  {| M3Model.L1 := layer3 "polar" false; M3Model.L2 := layer3 "polar" false |}.
End RealArith.

(** ** Rounded arithmetic *)

Module FloatArith.
Import PrimFloat.

(** The 2-norm of a row in binary64. *)
Definition Fnorm (r : list float) : float :=
  sqrt (fold_left (fun s a => s + a * a)%float r 0%float).

(** A count as a float, exact below 2^53. *)
Fixpoint Fcount (n : nat) : float :=
  match n with
  | O => 0%float
  | S k => (Fcount k + 1)%float
  end.

(** Tensors of binary64 entries.  The kernel's floats have no atan2, which
    stays a parameter; the mode "position" does not call it. *)
Definition FScalar (atan2 : float -> float -> float) : Scalar float := {|
  tzero := 0%float;
  tadd := add;
  tsub := sub;
  tdiv := div;
  tnorm := Fnorm;
  tatan2 := atan2;
  tcount := Fcount
|}.

(** Four nodes at the origin of a line with the features 0, 2^53, 1 and
    -2^53, the three edges out of node 0 in two orders, and a layer with the
    mean reducer whose networks return their input. *)
Definition x_big : tensor float := Torch.vector [0; 0x1p53; 1; -0x1p53]%float.
Definition pos_origin : matrix float :=
  {| ncols := 1; rows := [[0]; [0]; [0]; [0]]%float |}.
Definition edges_a : edge_index := [(0, 1); (0, 2); (0, 3)]%Z.
Definition edges_b : edge_index := [(0, 1); (0, 3); (0, 2)]%Z.
Definition same (m : matrix float) : matrix float := m.
Definition layer_mean : EdgeConv float :=
  EdgeConvBase.init same same Mean "position"%string true.

(** The entry of row [i] and column [j], and whether it is zero. *)
Definition entry (m : matrix float) (i j : nat) : float :=
  nth j (nth i (rows m) []) 0%float.
Definition entry_is_zero (m : matrix float) (i j : nat) : bool :=
  eqb (entry m i j) 0%float.
End FloatArith.

(** ** Theorems *)

Section Claims.
Context {T : Type} `{Scalar T}.

Lemma bind_ok {A B : Type} (r : result A) (k : A -> result B) (b : B) :
  bind r k = Ok b -> exists a, r = Ok a /\ k a = Ok b.
Proof.
  destruct r as [a | e]; simpl; intros E.
  - exists a; split; [reflexivity | exact E].
  - discriminate E.
Qed.

Lemma bind_err {A B : Type} (r : result A) (k : A -> result B) (e : error) :
  bind r k = Err e -> r = Err e \/ exists a, r = Ok a /\ k a = Err e.
Proof.
  destruct r as [a | e']; simpl; intros E.
  - right. exists a. split; [reflexivity | exact E].
  - left. injection E as ->. reflexivity.
Qed.

Lemma zip_with_map {A B C E : Type} (f : A -> B -> C) (g : E -> A) (h : E -> B)
    (l : list E) :
  zip_with f (map g l) (map h l) = map (fun e => f (g e) (h e)) l.
Proof.
  induction l as [| e l IH]; simpl; [reflexivity | now rewrite IH].
Qed.

Lemma zip_with_length {A B C : Type} (f : A -> B -> C) (l : list A) (l' : list B) :
  length (zip_with f l l') = Nat.min (length l) (length l').
Proof.
  revert l'; induction l as [| a l IH]; intros [| b l']; simpl; auto.
Qed.

Lemma nth_error_zip_with {A B C : Type} (f : A -> B -> C) (l : list A) (l' : list B)
    (n : nat) (a : A) (b : B) :
  nth_error l n = Some a -> nth_error l' n = Some b ->
  nth_error (zip_with f l l') n = Some (f a b).
Proof.
  revert l l'; induction n as [| n IH]; intros [| a' l] [| b' l']; simpl;
    try discriminate.
  - intros [= ->] [= ->]. reflexivity.
  - apply IH.
Qed.

Lemma item_at_in_range {A : Type} (l : list (list A)) (k : Z) :
  in_range (length l) k = true -> item_at l k = nth (Z.to_nat k) l [].
Proof.
  intros E. unfold item_at. now rewrite E.
Qed.

Lemma index_select_ok (l : list (list T)) (idx : list Z) :
  forallb (in_range (length l)) idx = true ->
  Torch.index_select l idx = Ok (map (item_at l) idx).
Proof.
  induction idx as [| k idx IH]; simpl; intros E; [reflexivity |].
  apply andb_true_iff in E as [Ek E].
  rewrite Ek, (IH E), (item_at_in_range _ _ Ek). reflexivity.
Qed.

Lemma index_select_error (l : list (list T)) (idx : list Z) (e : error) :
  Torch.index_select l idx = Err e -> e = IndexError.
Proof.
  induction idx as [| k idx IH]; simpl; [discriminate |].
  destruct (in_range (length l) k); [| now intros [= <-]].
  destruct (Torch.index_select l idx) as [r | e']; simpl; [discriminate |].
  intros [= <-]. now apply IH.
Qed.

Lemma index_select_length (l : list (list T)) (idx : list Z) (r : list (list T)) :
  Torch.index_select l idx = Ok r -> length r = length idx.
Proof.
  revert r; induction idx as [| k idx IH]; simpl; intros r.
  - now intros [= <-].
  - destruct (in_range (length l) k); [| discriminate].
    destruct (Torch.index_select l idx) as [r' | e]; simpl; [| discriminate].
    intros [= <-]. simpl. now rewrite (IH r').
Qed.

Lemma edges_in_range_rows (n : nat) (ei : edge_index) :
  Spec.edges_in_range n ei = true ->
  forallb (in_range n) (row0 ei) = true /\ forallb (in_range n) (row1 ei) = true.
Proof.
  unfold Spec.edges_in_range, row0, row1.
  induction ei as [| e ei IH]; simpl; [now split |].
  rewrite !andb_true_iff. intros [[E0 E1] E]. destruct (IH E) as [I0 I1].
  now rewrite E0, E1, I0, I1.
Qed.

Lemma lift_ok (x : tensor T) (idx : list Z) :
  forallb (in_range (Torch.size0 x)) idx = true ->
  MessagePassing.lift x idx
  = Ok {| item_shape := item_shape x; items := map (item_at (items x)) idx |}.
Proof.
  intros E. unfold MessagePassing.lift. now rewrite (index_select_ok _ _ E).
Qed.

Lemma lift_matrix_ok (m : matrix T) (idx : list Z) :
  forallb (in_range (Torch.nrows m)) idx = true ->
  MessagePassing.lift_matrix m idx
  = Ok {| ncols := ncols m; rows := map (item_at (rows m)) idx |}.
Proof.
  intros E. unfold MessagePassing.lift_matrix. now rewrite (index_select_ok _ _ E).
Qed.

Lemma cat_error (ts : list (tensor T)) (e : error) :
  Torch.cat ts = Err e -> e = RuntimeError.
Proof.
  revert e; induction ts as [| t ts IH]; simpl; intros e.
  - now intros [= <-].
  - unfold Torch.as_matrix.
    destruct (item_shape t) as [| w [| w' s]]; simpl; try now intros [= <-].
    destruct ts as [| t' ts']; [discriminate |].
    destruct (Torch.cat (t' :: ts')) as [r | e']; simpl.
    + destruct (_ =? _); [discriminate | now intros [= <-]].
    + intros [= <-]. now apply IH.
Qed.

Lemma cat_one (w : nat) (its : list (list T)) :
  Torch.cat [{| item_shape := [w]; items := its |}] = Ok {| ncols := w; rows := its |}.
Proof. reflexivity. Qed.

Lemma cat_cons_map {E : Type} (w wr : nat) (g gr : E -> list T) (l : list E)
    (t : tensor T) (ts : list (tensor T)) :
  Torch.cat (t :: ts) = Ok {| ncols := wr; rows := map gr l |} ->
  Torch.cat ({| item_shape := [w]; items := map g l |} :: t :: ts)
  = Ok {| ncols := w + wr; rows := map (fun e => g e ++ gr e) l |}.
Proof.
  intros E0.
  change (Torch.cat ({| item_shape := [w]; items := map g l |} :: t :: ts))
    with (r <- Torch.cat (t :: ts) ;;
          if Torch.nrows {| ncols := w; rows := map g l |} =? Torch.nrows r
          then Ok (Torch.hstack {| ncols := w; rows := map g l |} r)
          else Err RuntimeError).
  rewrite E0. simpl. unfold Torch.nrows, Torch.hstack. simpl.
  rewrite !length_map, Nat.eqb_refl, zip_with_map. reflexivity.
Qed.

(** C1: M3Model.forward returns what the geometric layer followed by the
    context layer return when they are called by hand, in that order, on the
    same features, edge index and positions. *)
Theorem C1_m3_forward_is_manual_sequence :
  forall (self : M3Model.t) (x : tensor T) (ei : edge_index) (pos : matrix T),
    M3Model.forward self x ei pos
    = Spec.manual_sequence (M3Model.L1 self) (M3Model.L2 self) x ei pos.
Proof.
  intros self x ei pos.
  unfold M3Model.forward, Spec.manual_sequence, long, bind.
  destruct (EdgeConvGeom.forward (M3Model.L1 self) ei pos); reflexivity.
Qed.

Lemma unknown_mode_message_inputs (self : EdgeConv T) x_i x_j pos_i pos_j :
  neighbor_loc self <> "distance"%string ->
  neighbor_loc self <> "position"%string ->
  neighbor_loc self <> "radial"%string ->
  EdgeConvBase.message_inputs self x_i x_j pos_i pos_j = Err NameError.
Proof.
  intros Hd Hp Hr. unfold EdgeConvBase.message_inputs.
  apply String.eqb_neq in Hd, Hp, Hr.
  rewrite Hd, Hp, Hr. reflexivity.
Qed.

(** C3: with a neighbor_loc other than "position", "distance" and "radial"
    the message computation of EdgeConvBase raises NameError on every
    argument; a propagate that reaches it ends in this error, and forward
    never returns a tensor. *)
Theorem C3_unknown_mode_raises :
  forall self : EdgeConv T,
    neighbor_loc self <> "distance"%string ->
    neighbor_loc self <> "position"%string ->
    neighbor_loc self <> "radial"%string ->
    (forall x_i x_j pos_i pos_j,
        EdgeConvBase.message self x_i x_j pos_i pos_j = Err NameError)
    /\ (forall ei x pos args,
          EdgeConvBase.collect ei x pos = Ok args ->
          EdgeConvBase.propagate self ei x pos = Err NameError)
    /\ (forall x ei pos out, EdgeConvBase.forward self x ei pos <> Ok out).
Proof.
  intros self Hd Hp Hr.
  assert (M : forall x_i x_j pos_i pos_j,
             EdgeConvBase.message self x_i x_j pos_i pos_j = Err NameError).
  { intros. unfold EdgeConvBase.message.
    rewrite unknown_mode_message_inputs by assumption. reflexivity. }
  assert (P : forall ei x pos args,
             EdgeConvBase.collect ei x pos = Ok args ->
             EdgeConvBase.propagate self ei x pos = Err NameError).
  { intros ei x pos [[[x_i x_j] pos_i] pos_j] E.
    unfold EdgeConvBase.propagate. rewrite E. simpl. rewrite M. reflexivity. }
  repeat split; [exact M | exact P |].
  intros x ei pos out. unfold EdgeConvBase.forward.
  set (x' := if Torch.dim x =? 1 then Torch.unsqueeze_last x else x).
  destruct (EdgeConvBase.collect ei x' pos) as [args | e] eqn:E.
  - rewrite (P _ _ _ _ E). discriminate.
  - unfold EdgeConvBase.propagate. rewrite E. simpl. discriminate.
Qed.

(** C8: forward of EdgeConvBase and of EdgeConvWithCtx hands a flat sequence
    of N entries to propagate as the N x 1 tensor whose rows are the entries,
    and hands a tensor of rank 2 or more to propagate as it is. *)
Theorem C8_flat_features_become_a_column :
  forall (self : EdgeConv T) (v : list T) (x : tensor T) (ei : edge_index)
         (pos ctx : matrix T),
    2 <= Torch.dim x ->
    Torch.unsqueeze_last (Torch.vector v) = Torch.of_matrix (Torch.view_col v)
    /\ EdgeConvBase.forward self (Torch.vector v) ei pos
       = EdgeConvBase.propagate self ei (Torch.of_matrix (Torch.view_col v)) pos
    /\ EdgeConvWithCtx.forward self (Torch.vector v) ei pos ctx
       = EdgeConvWithCtx.propagate self ei (Torch.of_matrix (Torch.view_col v)) pos ctx
    /\ EdgeConvBase.forward self x ei pos = EdgeConvBase.propagate self ei x pos
    /\ EdgeConvWithCtx.forward self x ei pos ctx
       = EdgeConvWithCtx.propagate self ei x pos ctx.
Proof.
  intros self v x ei pos ctx Hx.
  assert (Hd : (Torch.dim x =? 1) = false) by (apply Nat.eqb_neq; lia).
  unfold EdgeConvBase.forward, EdgeConvWithCtx.forward.
  rewrite Hd. repeat split; reflexivity.
Qed.

(** C9: two EdgeConvWithCtx layers built from the same networks, reducer and
    mode, one with self_val=True and one with self_val=False, return the same
    result on every input. *)
Theorem C9_context_layer_ignores_self_val :
  forall (msg aggr_n : matrix T -> matrix T) (r : reducer) (mode : string)
         (x : tensor T) (ei : edge_index) (pos ctx : matrix T),
    EdgeConvWithCtx.forward (EdgeConvBase.init msg aggr_n r mode true) x ei pos ctx
    = EdgeConvWithCtx.forward (EdgeConvBase.init msg aggr_n r mode false) x ei pos ctx.
Proof.
  intros. unfold EdgeConvWithCtx.forward, EdgeConvWithCtx.propagate,
    EdgeConvWithCtx.message, EdgeConvWithCtx.update, EdgeConvBase.init.
  simpl. reflexivity.
Qed.

Lemma gather_ok (x : tensor T) (ei : edge_index) :
  Spec.edges_in_range (Torch.size0 x) ei = true ->
  MessagePassing.lift x (row0 ei) = Ok (Spec.gather_features x fst ei)
  /\ MessagePassing.lift x (row1 ei) = Ok (Spec.gather_features x snd ei).
Proof.
  intros E. destruct (edges_in_range_rows _ _ E) as [E0 E1].
  rewrite (lift_ok _ _ E0), (lift_ok _ _ E1).
  unfold row0, row1, Spec.gather_features, Spec.feature. now rewrite !map_map.
Qed.

Lemma gather_matrix_ok (m : matrix T) (ei : edge_index) :
  Spec.edges_in_range (Torch.nrows m) ei = true ->
  MessagePassing.lift_matrix m (row0 ei) = Ok (Spec.gather_rows m fst ei)
  /\ MessagePassing.lift_matrix m (row1 ei) = Ok (Spec.gather_rows m snd ei).
Proof.
  intros E. destruct (edges_in_range_rows _ _ E) as [E0 E1].
  rewrite (lift_matrix_ok _ _ E0), (lift_matrix_ok _ _ E1).
  unfold row0, row1, Spec.gather_rows, Spec.position. now rewrite !map_map.
Qed.

Lemma base_collect_ok (x : tensor T) (ei : edge_index) (pos : matrix T) :
  Torch.size0 x = Torch.nrows pos ->
  Spec.edges_in_range (Torch.size0 x) ei = true ->
  EdgeConvBase.collect ei x pos
  = Ok (Spec.gather_features x fst ei, Spec.gather_features x snd ei,
        Spec.gather_rows pos fst ei, Spec.gather_rows pos snd ei).
Proof.
  intros Hn E. unfold EdgeConvBase.collect.
  destruct (gather_ok _ _ E) as [-> ->]. rewrite Hn in E.
  destruct (gather_matrix_ok _ _ E) as [-> ->].
  unfold MessagePassing.set_size. rewrite Hn, Nat.eqb_refl. reflexivity.
Qed.

Lemma sub_gathered (pos : matrix T) (ei : edge_index) :
  Torch.sub (Spec.gather_rows pos snd ei) (Spec.gather_rows pos fst ei)
  = {| ncols := ncols pos; rows := map (fun e => Spec.delta pos (fst e) (snd e)) ei |}.
Proof.
  unfold Torch.sub, Spec.gather_rows. simpl. now rewrite zip_with_map.
Qed.

Lemma norm_gathered (pos : matrix T) (ei : edge_index) :
  Torch.view_col (Torch.norm_dim1
    {| ncols := ncols pos; rows := map (fun e => Spec.delta pos (fst e) (snd e)) ei |})
  = {| ncols := 1; rows := map (fun e => [Spec.distance pos (fst e) (snd e)]) ei |}.
Proof.
  unfold Torch.view_col, Torch.norm_dim1. simpl. now rewrite !map_map.
Qed.

Lemma div_gathered (pos : matrix T) (ei : edge_index) :
  Torch.div_col
    {| ncols := ncols pos; rows := map (fun e => Spec.delta pos (fst e) (snd e)) ei |}
    {| ncols := 1; rows := map (fun e => [Spec.distance pos (fst e) (snd e)]) ei |}
  = {| ncols := ncols pos;
       rows := map (fun e => Spec.unit_direction pos (fst e) (snd e)) ei |}.
Proof.
  unfold Torch.div_col. simpl. now rewrite zip_with_map.
Qed.

Lemma angle_gathered (pos : matrix T) (ei : edge_index) :
  2 <= ncols pos ->
  let pos_vec :=
    {| ncols := ncols pos; rows := map (fun e => Spec.delta pos (fst e) (snd e)) ei |} in
  exists ys xs,
    Torch.select_col pos_vec 1 = Ok ys /\ Torch.select_col pos_vec 0 = Ok xs
    /\ Torch.view_col (Torch.atan2 ys xs)
       = {| ncols := 1; rows := map (fun e => [Spec.angle pos (fst e) (snd e)]) ei |}.
Proof.
  intros HD pos_vec. unfold Torch.select_col, pos_vec. simpl ncols. simpl rows.
  assert (E1 : (1 <? ncols pos) = true) by (apply Nat.ltb_lt; lia).
  assert (E0 : (0 <? ncols pos) = true) by (apply Nat.ltb_lt; lia).
  rewrite E1, E0. do 2 eexists. split; [reflexivity |]. split; [reflexivity |].
  unfold Torch.view_col, Torch.atan2. rewrite !map_map, zip_with_map, map_map.
  reflexivity.
Qed.

Ltac cat_rows :=
  repeat first [ apply cat_one | apply cat_cons_map ].

Lemma base_position_inputs (self : EdgeConv T) (x : tensor T) (ei : edge_index)
    (pos : matrix T) (F : nat) :
  item_shape x = [F] ->
  neighbor_loc self = "position"%string ->
  EdgeConvBase.message_inputs self (Spec.gather_features x fst ei)
    (Spec.gather_features x snd ei) (Spec.gather_rows pos fst ei)
    (Spec.gather_rows pos snd ei)
  = Ok {| ncols := F + (F + ncols pos); rows := map (Spec.position_input x pos) ei |}.
Proof.
  intros HF Hm. unfold EdgeConvBase.message_inputs. rewrite Hm. simpl String.eqb.
  rewrite sub_gathered. unfold Spec.gather_features, Torch.of_matrix. rewrite HF.
  simpl ncols. simpl rows. unfold Spec.position_input. cat_rows.
Qed.

Lemma base_distance_inputs (self : EdgeConv T) (x : tensor T) (ei : edge_index)
    (pos : matrix T) (F : nat) :
  item_shape x = [F] ->
  neighbor_loc self = "distance"%string ->
  EdgeConvBase.message_inputs self (Spec.gather_features x fst ei)
    (Spec.gather_features x snd ei) (Spec.gather_rows pos fst ei)
    (Spec.gather_rows pos snd ei)
  = Ok {| ncols := F + (F + 1); rows := map (Spec.distance_input x pos) ei |}.
Proof.
  intros HF Hm. unfold EdgeConvBase.message_inputs. rewrite Hm. simpl String.eqb.
  rewrite sub_gathered, norm_gathered. unfold Spec.gather_features, Torch.of_matrix.
  rewrite HF. simpl ncols. simpl rows. unfold Spec.distance_input. cat_rows.
Qed.

Lemma base_radial_inputs (self : EdgeConv T) (x : tensor T) (ei : edge_index)
    (pos : matrix T) (F : nat) :
  item_shape x = [F] ->
  neighbor_loc self = "radial"%string ->
  2 <= ncols pos ->
  EdgeConvBase.message_inputs self (Spec.gather_features x fst ei)
    (Spec.gather_features x snd ei) (Spec.gather_rows pos fst ei)
    (Spec.gather_rows pos snd ei)
  = Ok {| ncols := F + (F + (1 + 1)); rows := map (Spec.radial_input x pos) ei |}.
Proof.
  intros HF Hm HD. unfold EdgeConvBase.message_inputs. rewrite Hm. simpl String.eqb.
  rewrite sub_gathered, norm_gathered.
  destruct (angle_gathered pos ei HD) as (ys & xs & -> & -> & Ea).
  unfold bind. rewrite Ea. unfold Spec.gather_features, Torch.of_matrix.
  rewrite HF. simpl ncols. simpl rows. unfold Spec.radial_input. cat_rows.
Qed.

(** C2: for features of width F, positions with one row per node and edges
    between the nodes, propagate hands to message the rows gathered along
    edge_index[0] (side i) and edge_index[1] (side j), and message applies the
    message network to the tensor whose row for the edge (i -> j) is
    [feature_i, feature_j, position_j - position_i] in mode "position",
    [feature_i, feature_j, norm] in mode "distance", and
    [feature_i, feature_j, norm, atan2(dy, dx)] in mode "radial". *)
Theorem C2_base_message_input :
  forall (self : EdgeConv T) (x : tensor T) (ei : edge_index) (pos : matrix T) (F : nat),
    item_shape x = [F] ->
    Torch.size0 x = Torch.nrows pos ->
    Spec.edges_in_range (Torch.size0 x) ei = true ->
    exists x_i x_j pos_i pos_j,
      EdgeConvBase.collect ei x pos = Ok (x_i, x_j, pos_i, pos_j)
      /\ (neighbor_loc self = "position"%string ->
          EdgeConvBase.message self x_i x_j pos_i pos_j
          = Ok (msg_net self {| ncols := F + (F + ncols pos);
                                rows := map (Spec.position_input x pos) ei |}))
      /\ (neighbor_loc self = "distance"%string ->
          EdgeConvBase.message self x_i x_j pos_i pos_j
          = Ok (msg_net self {| ncols := F + (F + 1);
                                rows := map (Spec.distance_input x pos) ei |}))
      /\ (neighbor_loc self = "radial"%string -> 2 <= ncols pos ->
          EdgeConvBase.message self x_i x_j pos_i pos_j
          = Ok (msg_net self {| ncols := F + (F + (1 + 1));
                                rows := map (Spec.radial_input x pos) ei |})).
Proof.
  intros self x ei pos F HF Hn E.
  do 4 eexists. split; [apply base_collect_ok; assumption |].
  unfold EdgeConvBase.message. repeat split.
  - intros Hm. now rewrite (base_position_inputs self x ei pos F HF Hm).
  - intros Hm. now rewrite (base_distance_inputs self x ei pos F HF Hm).
  - intros Hm HD. now rewrite (base_radial_inputs self x ei pos F HF Hm HD).
Qed.

Lemma geom_collect_ok (ei : edge_index) (pos : matrix T) :
  Spec.edges_in_range (Torch.nrows pos) ei = true ->
  EdgeConvGeom.collect ei pos
  = Ok (Spec.gather_rows pos fst ei, Spec.gather_rows pos snd ei).
Proof.
  intros E. unfold EdgeConvGeom.collect.
  destruct (gather_matrix_ok _ _ E) as [-> ->]. reflexivity.
Qed.

Lemma geom_inputs (ei : edge_index) (pos : matrix T) :
  EdgeConvGeom.message_inputs (Spec.gather_rows pos fst ei) (Spec.gather_rows pos snd ei)
  = Ok {| ncols := 1 + ncols pos; rows := map (Spec.geometric_input pos) ei |}.
Proof.
  unfold EdgeConvGeom.message_inputs.
  rewrite sub_gathered, norm_gathered, div_gathered.
  unfold Torch.of_matrix. simpl ncols. simpl rows.
  unfold Spec.geometric_input. cat_rows.
Qed.

Lemma ctx_collect_ok (x : tensor T) (ei : edge_index) (pos ctx : matrix T) :
  Torch.size0 x = Torch.nrows pos ->
  Torch.size0 x = Torch.nrows ctx ->
  Spec.edges_in_range (Torch.size0 x) ei = true ->
  EdgeConvWithCtx.collect ei x pos ctx
  = Ok (Spec.gather_features x fst ei, Spec.gather_features x snd ei,
        Spec.gather_rows pos fst ei, Spec.gather_rows pos snd ei,
        Spec.gather_rows ctx fst ei).
Proof.
  intros Hn Hc E. unfold EdgeConvWithCtx.collect.
  destruct (gather_ok _ _ E) as [-> ->].
  assert (Ep := E). rewrite Hn in Ep. destruct (gather_matrix_ok _ _ Ep) as [-> ->].
  assert (Ec := E). rewrite Hc in Ec. destruct (gather_matrix_ok _ _ Ec) as [-> _].
  unfold MessagePassing.set_size. rewrite <- Hn, <- Hc, Nat.eqb_refl. reflexivity.
Qed.

Lemma ctx_inputs (x : tensor T) (ei : edge_index) (pos ctx : matrix T) (F : nat) :
  item_shape x = [F] ->
  EdgeConvWithCtx.message_inputs (Spec.gather_features x fst ei)
    (Spec.gather_features x snd ei) (Spec.gather_rows pos fst ei)
    (Spec.gather_rows pos snd ei) (Spec.gather_rows ctx fst ei)
  = Ok {| ncols := F + (F + (1 + (ncols pos + ncols ctx)));
          rows := map (Spec.context_input x pos ctx) ei |}.
Proof.
  intros HF. unfold EdgeConvWithCtx.message_inputs.
  rewrite sub_gathered, norm_gathered, div_gathered.
  unfold Torch.sub_tensor, Spec.gather_features, Spec.gather_rows, Torch.of_matrix.
  simpl item_shape. simpl items. simpl ncols. simpl rows.
  rewrite HF, zip_with_map. unfold Spec.context_input. cat_rows.
Qed.

Lemma ctx_update_inputs (aggr_out ctx : matrix T) :
  Torch.nrows aggr_out = Torch.nrows ctx ->
  EdgeConvWithCtx.update_inputs aggr_out ctx = Ok (Torch.hstack aggr_out ctx).
Proof.
  intros Hn. unfold EdgeConvWithCtx.update_inputs, Torch.cat, Torch.of_matrix,
    Torch.as_matrix. unfold Torch.nrows in *. simpl. rewrite Hn, Nat.eqb_refl.
  destruct aggr_out, ctx; reflexivity.
Qed.

(** C7: for features of width F and positions and contexts with one row per
    node, EdgeConvWithCtx applies its message network to the tensor whose row
    for the edge (i -> j) is [feature_i, feature_j - feature_i, distance,
    unit_direction, context_i], and its update applies the aggregation network
    to the tensor whose row for node n is [aggregate_n, context_n]. *)
Theorem C7_context_message_and_update :
  forall (self : EdgeConv T) (x : tensor T) (ei : edge_index) (pos ctx : matrix T)
         (F : nat),
    item_shape x = [F] ->
    Torch.size0 x = Torch.nrows pos ->
    Torch.size0 x = Torch.nrows ctx ->
    Spec.edges_in_range (Torch.size0 x) ei = true ->
    (exists x_i x_j pos_i pos_j ctx_i,
        EdgeConvWithCtx.collect ei x pos ctx = Ok (x_i, x_j, pos_i, pos_j, ctx_i)
        /\ EdgeConvWithCtx.message self x_i x_j pos_i pos_j ctx_i
           = Ok (msg_net self {| ncols := F + (F + (1 + (ncols pos + ncols ctx)));
                                 rows := map (Spec.context_input x pos ctx) ei |}))
    /\ (forall aggr_out : matrix T,
          Torch.nrows aggr_out = Torch.nrows ctx ->
          EdgeConvWithCtx.update self aggr_out x pos ctx
          = Ok (aggr_net self (Torch.hstack aggr_out ctx))
          /\ forall n a c,
               nth_error (rows aggr_out) n = Some a ->
               nth_error (rows ctx) n = Some c ->
               nth_error (rows (Torch.hstack aggr_out ctx)) n = Some (a ++ c)).
Proof.
  intros self x ei pos ctx F HF Hn Hc E. split.
  - do 5 eexists. split; [apply ctx_collect_ok; assumption |].
    unfold EdgeConvWithCtx.message. now rewrite (ctx_inputs x ei pos ctx F HF).
  - intros aggr_out Ha. split.
    + unfold EdgeConvWithCtx.update. now rewrite (ctx_update_inputs _ _ Ha).
    + intros n a c Hna Hnc. simpl. now apply nth_error_zip_with.
Qed.

(** C4: for an edge (i -> j) whose two nodes have the same position and
    whose computed distance is zero, the message computation of EdgeConvGeom
    and of EdgeConvWithCtx raises nothing and hands to the message network a
    row whose direction entries are the entries of position_j - position_i
    divided by that zero distance: the quotient is taken as it is, with no
    test and no lower bound on the denominator. *)
Theorem C4_zero_distance_is_divided_by :
  forall (self : EdgeConv T) (x : tensor T) (ei : edge_index) (pos ctx : matrix T)
         (F k : nat) (i j : Z) (p : list T),
    item_shape x = [F] ->
    Torch.size0 x = Torch.nrows pos ->
    Torch.size0 x = Torch.nrows ctx ->
    Spec.edges_in_range (Torch.size0 x) ei = true ->
    nth_error ei k = Some (i, j) ->
    Spec.position pos i = p ->
    Spec.position pos j = p ->
    tnorm (Torch.vsub p p) = tzero ->
    (exists pos_i pos_j inputs,
        EdgeConvGeom.collect ei pos = Ok (pos_i, pos_j)
        /\ EdgeConvGeom.message_inputs pos_i pos_j = Ok inputs
        /\ EdgeConvGeom.message self pos_i pos_j = Ok (msg_net self inputs)
        /\ nth_error (rows inputs) k
           = Some ([tzero] ++ map (fun c => tdiv c tzero) (Torch.vsub p p)))
    /\ (exists x_i x_j pos_i pos_j ctx_i inputs,
          EdgeConvWithCtx.collect ei x pos ctx = Ok (x_i, x_j, pos_i, pos_j, ctx_i)
          /\ EdgeConvWithCtx.message_inputs x_i x_j pos_i pos_j ctx_i = Ok inputs
          /\ EdgeConvWithCtx.message self x_i x_j pos_i pos_j ctx_i
             = Ok (msg_net self inputs)
          /\ nth_error (rows inputs) k
             = Some (Spec.feature x i
                       ++ Torch.vsub (Spec.feature x j) (Spec.feature x i)
                       ++ [tzero] ++ map (fun c => tdiv c tzero) (Torch.vsub p p)
                       ++ Spec.position ctx i)).
Proof.
  intros self x ei pos ctx F k i j p HF Hn Hc E Hk Hi Hj Hz.
  assert (Ep := E). rewrite Hn in Ep. split.
  - do 3 eexists. split; [apply geom_collect_ok; assumption |].
    split; [apply geom_inputs |]. split.
    + unfold EdgeConvGeom.message. now rewrite geom_inputs.
    + simpl rows. rewrite (map_nth_error _ _ _ Hk).
      unfold Spec.geometric_input, Spec.unit_direction, Spec.distance, Spec.delta.
      simpl fst. simpl snd. now rewrite Hi, Hj, Hz.
  - do 6 eexists. split; [apply ctx_collect_ok; assumption |].
    split; [apply (ctx_inputs x ei pos ctx F HF) |]. split.
    + unfold EdgeConvWithCtx.message. now rewrite (ctx_inputs x ei pos ctx F HF).
    + simpl rows. rewrite (map_nth_error _ _ _ Hk).
      unfold Spec.context_input, Spec.unit_direction, Spec.distance, Spec.delta.
      simpl fst. simpl snd. now rewrite Hi, Hj, Hz.
Qed.

Lemma base_update_inputs_self (self : EdgeConv T) (aggr_out : matrix T) (x : tensor T)
    (F : nat) :
  item_shape x = [F] ->
  Torch.nrows aggr_out = Torch.size0 x ->
  self_val self = true ->
  EdgeConvBase.update_inputs self aggr_out x
  = Ok (Torch.hstack {| ncols := F; rows := items x |} aggr_out).
Proof.
  intros HF Hn Hs. unfold EdgeConvBase.update_inputs, Torch.cat, Torch.of_matrix,
    Torch.as_matrix. rewrite Hs, HF. simpl.
  unfold Torch.nrows, Torch.size0 in *. simpl. rewrite Hn, Nat.eqb_refl.
  destruct aggr_out; reflexivity.
Qed.

(** C5 (amended): for features of width F and positions of width D, the
    message network of the generic convolution receives a tensor of width
    2F + 1 in mode "distance", 2F + D in mode "position" and 2F + 2 in mode
    "radial"; the aggregation network receives a tensor that is F columns
    wider with self_val set than without it. *)
Theorem C5_input_widths :
  forall (self : EdgeConv T) (x : tensor T) (ei : edge_index) (pos : matrix T) (F : nat),
    item_shape x = [F] ->
    Torch.size0 x = Torch.nrows pos ->
    Spec.edges_in_range (Torch.size0 x) ei = true ->
    (exists x_i x_j pos_i pos_j,
        EdgeConvBase.collect ei x pos = Ok (x_i, x_j, pos_i, pos_j)
        /\ (neighbor_loc self = "distance"%string ->
            exists inputs,
              EdgeConvBase.message_inputs self x_i x_j pos_i pos_j = Ok inputs
              /\ ncols inputs = F * 2 + 1)
        /\ (neighbor_loc self = "position"%string ->
            exists inputs,
              EdgeConvBase.message_inputs self x_i x_j pos_i pos_j = Ok inputs
              /\ ncols inputs = F * 2 + ncols pos)
        /\ (neighbor_loc self = "radial"%string -> 2 <= ncols pos ->
            exists inputs,
              EdgeConvBase.message_inputs self x_i x_j pos_i pos_j = Ok inputs
              /\ ncols inputs = F * 2 + 2))
    /\ (forall aggr_out : matrix T,
          Torch.nrows aggr_out = Torch.size0 x ->
          (self_val self = true ->
           exists inp,
             EdgeConvBase.update_inputs self aggr_out x = Ok inp
             /\ ncols inp = F + ncols aggr_out)
          /\ (self_val self = false ->
              EdgeConvBase.update_inputs self aggr_out x = Ok aggr_out)).
Proof.
  intros self x ei pos F HF Hn E. split.
  - do 4 eexists. split; [apply base_collect_ok; assumption |]. repeat split.
    + intros Hm. eexists. split; [apply (base_distance_inputs self x ei pos F HF Hm) |].
      simpl. lia.
    + intros Hm. eexists. split; [apply (base_position_inputs self x ei pos F HF Hm) |].
      simpl. lia.
    + intros Hm HD. eexists.
      split; [apply (base_radial_inputs self x ei pos F HF Hm HD) |]. simpl. lia.
  - intros aggr_out Ha. split.
    + intros Hs. eexists.
      split; [apply (base_update_inputs_self self aggr_out x F HF Ha Hs) |]. reflexivity.
    + intros Hs. unfold EdgeConvBase.update_inputs. now rewrite Hs.
Qed.

Lemma incident_map (n : nat) (h : Z * Z -> list T) (ei : edge_index) :
  MessagePassing.incident n (row0 ei) (map h ei)
  = map h (filter (fun e => (fst e =? Z.of_nat n)%Z) ei).
Proof.
  unfold row0. induction ei as [| e ei IH]; simpl; [reflexivity |].
  destruct (fst e =? Z.of_nat n)%Z; simpl; now rewrite IH.
Qed.

Lemma filter_permutation {A : Type} (f : A -> bool) (l l' : list A) :
  Permutation l l' -> Permutation (filter f l) (filter f l').
Proof.
  induction 1 as [| a l l' _ IH | a b l | l l' l'' _ IH _ IH'].
  - constructor.
  - simpl. destruct (f a); [now constructor | exact IH].
  - simpl. destruct (f a), (f b); try reflexivity. constructor.
  - now transitivity (filter f l').
Qed.

Lemma edges_in_range_permutation (n : nat) (ei ei' : edge_index) :
  Permutation ei ei' ->
  Spec.edges_in_range n ei = true -> Spec.edges_in_range n ei' = true.
Proof.
  unfold Spec.edges_in_range. intros P E.
  apply forallb_forall. intros e He.
  apply (proj1 (forallb_forall _ _) E).
  apply (Permutation_in _ (Permutation_sym P) He).
Qed.

Section Commutative_reducer.
Hypothesis tadd_comm : forall a b : T, tadd a b = tadd b a.
Hypothesis tadd_assoc : forall a b c : T, tadd a (tadd b c) = tadd (tadd a b) c.

Lemma vadd_comm (u v : list T) : Torch.vadd u v = Torch.vadd v u.
Proof.
  unfold Torch.vadd. revert v; induction u as [| a u IH]; intros [| b v]; simpl;
    try reflexivity.
  now rewrite tadd_comm, IH.
Qed.

Lemma vadd_assoc (u v w : list T) :
  Torch.vadd u (Torch.vadd v w) = Torch.vadd (Torch.vadd u v) w.
Proof.
  unfold Torch.vadd. revert v w; induction u as [| a u IH]; intros [| b v] [| c w];
    simpl; try reflexivity.
  now rewrite tadd_assoc, IH.
Qed.

Lemma fold_vadd_permutation (l l' : list (list T)) :
  Permutation l l' ->
  forall acc, fold_left Torch.vadd l acc = fold_left Torch.vadd l' acc.
Proof.
  induction 1 as [| a l l' _ IH | a b l | l l' l'' _ IH _ IH']; intros acc; simpl.
  - reflexivity.
  - apply IH.
  - f_equal. now rewrite <- !vadd_assoc, (vadd_comm a b).
  - now rewrite IH, IH'.
Qed.

Lemma reduce_permutation (r : reducer) (w : nat) (l l' : list (list T)) :
  Permutation l l' -> MessagePassing.reduce r w l = MessagePassing.reduce r w l'.
Proof.
  intros P. unfold MessagePassing.reduce.
  rewrite (fold_vadd_permutation l l' P), (Permutation_length P). reflexivity.
Qed.
End Commutative_reducer.

(** C10: EdgeConvGeom returns the same result whatever neighbor_loc it was
    built with, known or not, and this result is never the NameError of the
    unknown mode. *)
Theorem C10_geometric_layer_ignores_mode :
  forall (msg aggr_n : matrix T -> matrix T) (r : reducer) (mode mode' : string)
         (sv : bool) (ei : edge_index) (pos : matrix T),
    EdgeConvGeom.forward (EdgeConvBase.init msg aggr_n r mode sv) ei pos
    = EdgeConvGeom.forward (EdgeConvBase.init msg aggr_n r mode' sv) ei pos
    /\ EdgeConvGeom.forward (EdgeConvBase.init msg aggr_n r mode sv) ei pos
       <> Err NameError.
Proof.
  intros msg aggr_n r mode mode' sv ei pos. split; [reflexivity |].
  unfold EdgeConvGeom.forward, EdgeConvGeom.propagate. intros E.
  apply bind_err in E as [E | [[pos_i pos_j] [_ E]]].
  - unfold EdgeConvGeom.collect, MessagePassing.lift_matrix in E.
    repeat (apply bind_err in E as [E | [? [_ E]]]);
      try (apply index_select_error in E); discriminate.
  - apply bind_err in E as [E | [out [_ E]]].
    + unfold EdgeConvGeom.message, EdgeConvGeom.message_inputs in E.
      apply bind_err in E as [E | [? [_ E]]]; [| discriminate].
      apply cat_error in E. discriminate.
    + apply bind_err in E as [E | [aggr_out [_ E]]]; [| discriminate].
      unfold MessagePassing.aggregate in E.
      destruct (_ =? _); discriminate.
Qed.

End Claims.

(** ** The theorems at concrete inputs, in exact arithmetic *)

Import RealArith.

Lemma identity_rowwise : Spec.rowwise RealArith.identity.
Proof.
  exists (fun w => w), (fun r => r). intros [w rs]. simpl.
  unfold RealArith.identity. now rewrite map_id.
Defined.

Lemma C2_witness :
  exists x_i x_j pos_i pos_j,
    EdgeConvBase.collect RealArith.edges3 (Torch.unsqueeze_last RealArith.x3)
      RealArith.pos3 = Ok (x_i, x_j, pos_i, pos_j)
    /\ EdgeConvBase.message (RealArith.layer3 "position" true) x_i x_j pos_i pos_j
       = Ok {| ncols := 4;
               rows := [[5; 7; 1 - 0; 0 - 0]; [5; 9; 0 - 0; 1 - 0]]%R |}.
Proof.
  destruct (C2_base_message_input (RealArith.layer3 "position" true)
              (Torch.unsqueeze_last RealArith.x3) RealArith.edges3 RealArith.pos3 1)
    as (x_i & x_j & pos_i & pos_j & Hc & Hp & _); try reflexivity.
  exists x_i, x_j, pos_i, pos_j. split; [exact Hc |].
  rewrite (Hp eq_refl). reflexivity.
Defined.

Lemma C3_witness :
  EdgeConvBase.propagate (RealArith.layer3 "polar" true) RealArith.edges3
    (Torch.unsqueeze_last RealArith.x3) RealArith.pos3 = Err NameError.
Proof.
  destruct (C3_unknown_mode_raises (RealArith.layer3 "polar" true))
    as (_ & P & _); try (simpl; discriminate).
  eapply P. reflexivity.
Defined.

Lemma twin_distance_zero :
  tnorm (Torch.vsub [1; 2]%R [1; 2]%R) = (tzero : R).
Proof.
  simpl. unfold RealArith.Rnorm. simpl.
  replace ((1 - 1) * (1 - 1) + ((2 - 2) * (2 - 2) + 0))%R with 0%R by lra.
  apply sqrt_0.
Defined.

Lemma C4_witness :
  exists pos_i pos_j inputs,
    EdgeConvGeom.collect RealArith.edges_twin RealArith.pos_twin = Ok (pos_i, pos_j)
    /\ EdgeConvGeom.message_inputs pos_i pos_j = Ok inputs
    /\ nth_error (rows inputs) 0 = Some [0; (1 - 1) / 0; (2 - 2) / 0]%R.
Proof.
  destruct (C4_zero_distance_is_divided_by (RealArith.layer3 "position" true)
              (Torch.unsqueeze_last RealArith.x_twin) RealArith.edges_twin
              RealArith.pos_twin RealArith.ctx_twin 1 0 0%Z 1%Z [1; 2]%R)
    as ((pos_i & pos_j & inputs & Hc & Hi & _ & Hr) & _);
    try reflexivity; [exact twin_distance_zero |].
  exists pos_i, pos_j, inputs. split; [exact Hc |]. split; [exact Hi |]. exact Hr.
Defined.

Lemma C5_witness :
  exists x_i x_j pos_i pos_j inputs,
    EdgeConvBase.collect RealArith.edges3 (Torch.unsqueeze_last RealArith.x3)
      RealArith.pos3 = Ok (x_i, x_j, pos_i, pos_j)
    /\ EdgeConvBase.message_inputs (RealArith.layer3 "radial" true) x_i x_j pos_i pos_j
       = Ok inputs
    /\ ncols inputs = 1 * 2 + 2.
Proof.
  destruct (C5_input_widths (RealArith.layer3 "radial" true)
              (Torch.unsqueeze_last RealArith.x3) RealArith.edges3 RealArith.pos3 1)
    as ((x_i & x_j & pos_i & pos_j & Hc & _ & _ & Hr) & _); try reflexivity.
  destruct (Hr eq_refl (le_n 2)) as (inputs & Hi & Hw).
  exists x_i, x_j, pos_i, pos_j, inputs. split; [exact Hc |]. split; [exact Hi | exact Hw].
Defined.

(** C5 as it is written fails in mode "radial": with one feature per node
    the message network receives [feature_i, feature_j, norm, angle], four
    columns and not 1 x 2 + 3. *)
Lemma C5_counterexample :
  exists x_i x_j pos_i pos_j inputs,
    item_shape (Torch.unsqueeze_last RealArith.x3) = [1]
    /\ EdgeConvBase.collect RealArith.edges3 (Torch.unsqueeze_last RealArith.x3)
         RealArith.pos3 = Ok (x_i, x_j, pos_i, pos_j)
    /\ EdgeConvBase.message_inputs (RealArith.layer3 "radial" true) x_i x_j pos_i pos_j
       = Ok inputs
    /\ ncols inputs = 4
    /\ ncols inputs <> 1 * 2 + 3.
Proof.
  do 5 eexists. split; [reflexivity |]. split; [reflexivity |].
  split; [reflexivity |]. split; [reflexivity | discriminate].
Qed.

Lemma C7_witness :
  exists x_i x_j pos_i pos_j ctx_i,
    EdgeConvWithCtx.collect RealArith.edges3 (Torch.unsqueeze_last RealArith.x3)
      RealArith.pos3 RealArith.ctx3 = Ok (x_i, x_j, pos_i, pos_j, ctx_i)
    /\ EdgeConvWithCtx.message (RealArith.layer3 "position" true)
         x_i x_j pos_i pos_j ctx_i
       = Ok {| ncols := 6;
               rows := map (Spec.context_input (Torch.unsqueeze_last RealArith.x3)
                              RealArith.pos3 RealArith.ctx3) RealArith.edges3 |}.
Proof.
  destruct (C7_context_message_and_update (RealArith.layer3 "position" true)
              (Torch.unsqueeze_last RealArith.x3) RealArith.edges3 RealArith.pos3
              RealArith.ctx3 1)
    as ((x_i & x_j & pos_i & pos_j & ctx_i & Hc & Hm) & _); try reflexivity.
  exists x_i, x_j, pos_i, pos_j, ctx_i. split; [exact Hc | exact Hm].
Defined.

Lemma C8_witness :
  EdgeConvBase.forward (RealArith.layer3 "position" true) RealArith.x3
    RealArith.edges3 RealArith.pos3
  = EdgeConvBase.propagate (RealArith.layer3 "position" true) RealArith.edges3
      (Torch.of_matrix {| ncols := 1; rows := [[5]; [7]; [9]]%R |}) RealArith.pos3
  /\ EdgeConvBase.forward (RealArith.layer3 "position" true)
       (Torch.of_matrix RealArith.ctx3) RealArith.edges3 RealArith.pos3
     = EdgeConvBase.propagate (RealArith.layer3 "position" true) RealArith.edges3
         (Torch.of_matrix RealArith.ctx3) RealArith.pos3.
Proof.
  destruct (C8_flat_features_become_a_column (RealArith.layer3 "position" true)
              [5; 7; 9]%R (Torch.of_matrix RealArith.ctx3) RealArith.edges3
              RealArith.pos3 RealArith.ctx3 (le_n 2))
    as (_ & Hv & _ & Hx & _).
  split; [exact Hv | exact Hx].
Defined.

(** The scenario of the specification: node 0 receives the mean of the two
    edge messages, nodes 1 and 2 have no edge listed first and keep the zero
    row. *)
Example scenario_three_nodes :
  EdgeConvBase.forward (layer3 "position" false) x3 edges3 pos3
  = Ok {| ncols := 4;
          rows := [[(0 + 5 + 5) / INR 2; (0 + 7 + 9) / INR 2;
                    (0 + (1 - 0) + (0 - 0)) / INR 2;
                    (0 + (0 - 0) + (1 - 0)) / INR 2];
                   [0 / INR 1; 0 / INR 1; 0 / INR 1; 0 / INR 1];
                   [0 / INR 1; 0 / INR 1; 0 / INR 1; 0 / INR 1]]%R |}.
Proof. reflexivity. Qed.

(** ** Beyond the claims: the layers node by node, their errors, the models *)

Section Layers.
Context {T : Type} `{Scalar T}.

Lemma bind_unit {A B : Type} (a : A) (k : A -> result B) : bind (Ok a) k = k a.
Proof. reflexivity. Qed.

Lemma nrows_aggregated (r : reducer) (W N : nat) (h : Z * Z -> list T) (ei : edge_index) :
  Torch.nrows (Node.aggregated r W N h ei) = N.
Proof.
  unfold Torch.nrows, Node.aggregated. simpl. now rewrite length_map, length_seq.
Qed.

Lemma length_rows_aggregated (r : reducer) (W N : nat) (h : Z * Z -> list T)
    (ei : edge_index) :
  length (rows (Node.aggregated r W N h ei)) = N.
Proof. apply nrows_aggregated. Qed.

Lemma aggregate_gathered (r : reducer) (W N : nat) (h : Z * Z -> list T) (ei : edge_index) :
  MessagePassing.aggregate r {| ncols := W; rows := map h ei |} (row0 ei) N
  = Ok (Node.aggregated r W N h ei).
Proof.
  unfold MessagePassing.aggregate, Torch.nrows, row0. simpl.
  rewrite !length_map, Nat.eqb_refl. unfold Node.aggregated. do 2 f_equal.
  apply map_ext. intros n. f_equal.
  change (map fst ei) with (row0 ei). apply incident_map.
Qed.

Lemma base_inputs_explicit (self : EdgeConv T) (x : tensor T) (pos : matrix T) (F : nat)
    (ei : edge_index) :
  item_shape x = [F] ->
  Spec.known_mode (neighbor_loc self) pos = true ->
  EdgeConvBase.message_inputs self (Spec.gather_features x fst ei)
    (Spec.gather_features x snd ei) (Spec.gather_rows pos fst ei)
    (Spec.gather_rows pos snd ei)
  = Ok {| ncols := Node.base_width (neighbor_loc self) F (ncols pos);
          rows := map (Node.base_input (neighbor_loc self) x pos) ei |}.
Proof.
  intros HF K. unfold Spec.known_mode in K.
  apply orb_true_iff in K as [K | K]; [apply orb_true_iff in K as [K | K] |].
  - apply String.eqb_eq in K.
    rewrite (base_distance_inputs self x ei pos F HF K).
    unfold Node.base_width, Node.base_input. now rewrite K.
  - apply String.eqb_eq in K.
    rewrite (base_position_inputs self x ei pos F HF K).
    unfold Node.base_width, Node.base_input. now rewrite K.
  - apply andb_true_iff in K as [K D]. apply String.eqb_eq in K.
    apply Nat.leb_le in D.
    rewrite (base_radial_inputs self x ei pos F HF K D).
    unfold Node.base_width, Node.base_input. now rewrite K.
Qed.

Lemma base_propagate_explicit (self : EdgeConv T) (x : tensor T) (ei : edge_index)
    (pos : matrix T) (F : nat) (wm : nat -> nat) (fm : list T -> list T) :
  item_shape x = [F] ->
  Torch.size0 x = Torch.nrows pos ->
  Spec.edges_in_range (Torch.size0 x) ei = true ->
  Spec.known_mode (neighbor_loc self) pos = true ->
  (forall m, msg_net self m = {| ncols := wm (ncols m); rows := map fm (rows m) |}) ->
  EdgeConvBase.propagate self ei x pos
  = EdgeConvBase.update self
      (Node.aggregated (aggr self)
         (wm (Node.base_width (neighbor_loc self) F (ncols pos))) (Torch.size0 x)
         (fun e => fm (Node.base_input (neighbor_loc self) x pos e)) ei) x.
Proof.
  intros HF Hn E K Hm.
  unfold EdgeConvBase.propagate. rewrite (base_collect_ok x ei pos Hn E). simpl bind.
  unfold EdgeConvBase.message. rewrite (base_inputs_explicit self x pos F ei HF K).
  simpl bind. rewrite Hm. simpl ncols. simpl rows. rewrite map_map.
  now rewrite aggregate_gathered.
Qed.

Lemma prepared_explicit (x : tensor T) :
  Torch.dim x <= 2 ->
  exists x',
    (if Torch.dim x =? 1 then Torch.unsqueeze_last x else x) = x'
    /\ item_shape x' = [Node.feature_width x] /\ items x' = items x.
Proof.
  unfold Torch.dim, Node.feature_width.
  destruct x as [[| F [| F' s]] its]; simpl; intros Hd.
  - eexists. split; [reflexivity |]. now split.
  - eexists. split; [reflexivity |]. now split.
  - lia.
Qed.

Lemma base_input_items (mode : string) (x x' : tensor T) (pos : matrix T) (e : Z * Z) :
  items x' = items x -> Node.base_input mode x' pos e = Node.base_input mode x pos e.
Proof.
  intros Hi. unfold Node.base_input, Spec.distance_input, Spec.position_input,
    Spec.radial_input, Spec.feature. now rewrite Hi.
Qed.

Lemma base_forward_closed :
  forall (self : EdgeConv T) (x : tensor T) (ei : edge_index) (pos : matrix T)
         (wm : nat -> nat) (fm : list T -> list T),
    Spec.valid_input self x ei pos = true ->
    (forall m, msg_net self m = {| ncols := wm (ncols m); rows := map fm (rows m) |}) ->
    EdgeConvBase.forward self x ei pos
    = Ok (aggr_net self
            (let A := Node.aggregated (aggr self)
                        (wm (Node.base_width (neighbor_loc self) (Node.feature_width x)
                               (ncols pos)))
                        (Torch.size0 x)
                        (fun e => fm (Node.base_input (neighbor_loc self) x pos e)) ei in
             if self_val self then Torch.hstack (Node.features_matrix x) A else A)).
Proof.
  intros self x ei pos wm fm V Hm.
  unfold Spec.valid_input in V. rewrite !andb_true_iff in V.
  destruct V as [[[Hd Hn] E] K].
  apply Nat.leb_le in Hd. apply Nat.eqb_eq in Hn.
  destruct (prepared_explicit x Hd) as (x' & Hx' & HF & Hi).
  unfold EdgeConvBase.forward. rewrite Hx'.
  assert (Hs : Torch.size0 x' = Torch.size0 x) by (unfold Torch.size0; now rewrite Hi).
  rewrite <- Hs in Hn, E.
  rewrite (base_propagate_explicit self x' ei pos _ wm fm HF Hn E K Hm).
  rewrite Hs.
  replace (fun e => fm (Node.base_input (neighbor_loc self) x' pos e))
    with (fun e => fm (Node.base_input (neighbor_loc self) x pos e)).
  2:{ symmetry. f_equal.
      assert (Hb : Node.base_input (neighbor_loc self) x' pos
                   = Node.base_input (neighbor_loc self) x pos).
      { unfold Node.base_input, Spec.distance_input, Spec.position_input,
          Spec.radial_input, Spec.feature. now rewrite Hi. }
      now rewrite Hb. }
  cbv zeta. unfold EdgeConvBase.update.
  destruct (self_val self) eqn:Sv.
  - rewrite (base_update_inputs_self self _ x' _ HF); [| | exact Sv].
    + simpl. unfold Node.features_matrix. now rewrite Hi.
    + now rewrite nrows_aggregated.
  - unfold EdgeConvBase.update_inputs. now rewrite Sv.
Qed.

Lemma valid_input_permutation (self : EdgeConv T) (x : tensor T) (ei ei' : edge_index)
    (pos : matrix T) :
  Permutation ei ei' ->
  Spec.valid_input self x ei pos = true -> Spec.valid_input self x ei' pos = true.
Proof.
  intros P V. unfold Spec.valid_input in *. rewrite !andb_true_iff in *.
  destruct V as [[[Hd Hn] E] K].
  repeat split; try assumption. now apply (edges_in_range_permutation _ ei ei').
Qed.

Lemma aggregated_permutation (r : reducer) (W N : nat) (h : Z * Z -> list T)
    (ei ei' : edge_index) :
  (forall a b : T, tadd a b = tadd b a) ->
  (forall a b c : T, tadd a (tadd b c) = tadd (tadd a b) c) ->
  Permutation ei ei' ->
  Node.aggregated r W N h ei = Node.aggregated r W N h ei'.
Proof.
  intros Hcomm Hassoc P. unfold Node.aggregated. f_equal.
  apply map_ext. intros n. apply (reduce_permutation Hcomm Hassoc).
  apply Permutation_map. unfold Node.edges_from. now apply filter_permutation.
Qed.

(** C6 (amended): on a valid input, with networks that act row by row,
    forward of the generic convolution returns the aggregation network applied
    to the tensor whose row for node n holds the features of n (with self_val)
    and the reduction of the messages of the edges listed with n first; this
    tensor has one row per node, in the order of the nodes; and where the
    addition of scalars is commutative and associative, forward returns the
    same tensor for every reordering of the edge list. *)
Theorem C6_rows_and_edge_order :
  forall (self : EdgeConv T) (x : tensor T) (ei : edge_index) (pos : matrix T)
         (wm : nat -> nat) (fm : list T -> list T),
    Spec.valid_input self x ei pos = true ->
    (forall m, msg_net self m = {| ncols := wm (ncols m); rows := map fm (rows m) |}) ->
    Spec.rowwise (aggr_net self) ->
    exists out,
      EdgeConvBase.forward self x ei pos = Ok out
      /\ out
         = aggr_net self
             (let A := Node.aggregated (aggr self)
                         (wm (Node.base_width (neighbor_loc self) (Node.feature_width x)
                                (ncols pos)))
                         (Torch.size0 x)
                         (fun e => fm (Node.base_input (neighbor_loc self) x pos e)) ei in
              if self_val self then Torch.hstack (Node.features_matrix x) A else A)
      /\ Torch.nrows out = Torch.size0 x
      /\ ((forall a b : T, tadd a b = tadd b a) ->
          (forall a b c : T, tadd a (tadd b c) = tadd (tadd a b) c) ->
          forall ei', Permutation ei ei' ->
                      EdgeConvBase.forward self x ei' pos = Ok out).
Proof.
  intros self x ei pos wm fm V Hm (wa & fa & Ha).
  eexists. split; [exact (base_forward_closed self x ei pos wm fm V Hm) |].
  split; [reflexivity |]. split.
  - rewrite Ha. unfold Torch.nrows. cbn [rows]. rewrite length_map. cbv zeta.
    destruct (self_val self).
    + unfold Torch.hstack, Node.features_matrix. cbn [rows].
      rewrite zip_with_length, length_rows_aggregated.
      unfold Torch.size0. apply Nat.min_id.
    + apply length_rows_aggregated.
  - intros Hcomm Hassoc ei' P.
    rewrite (base_forward_closed self x ei' pos wm fm
               (valid_input_permutation self x ei ei' pos P V) Hm).
    cbv zeta.
    now rewrite <- (aggregated_permutation (aggr self) _ _ _ ei ei' Hcomm Hassoc P).
Qed.

(** X1: on a valid input, with a message network that acts row by row,
    forward of the generic convolution returns the aggregation network applied
    to the tensor whose row for node n is the reduction of the messages of the
    edges listed with n first, preceded by the features of n when self_val is
    set. *)
Theorem X1_base_forward_node_by_node :
  forall (self : EdgeConv T) (x : tensor T) (ei : edge_index) (pos : matrix T)
         (wm : nat -> nat) (fm : list T -> list T),
    Spec.valid_input self x ei pos = true ->
    (forall m, msg_net self m = {| ncols := wm (ncols m); rows := map fm (rows m) |}) ->
    EdgeConvBase.forward self x ei pos
    = Ok (aggr_net self
            (let A := Node.aggregated (aggr self)
                        (wm (Node.base_width (neighbor_loc self) (Node.feature_width x)
                               (ncols pos)))
                        (Torch.size0 x)
                        (fun e => fm (Node.base_input (neighbor_loc self) x pos e)) ei in
             if self_val self then Torch.hstack (Node.features_matrix x) A else A)).
Proof.
  exact base_forward_closed.
Qed.

(** X2: MPNNModel, on features of rank 1 or 2 with one row per node, as many
    positions and edges between the nodes, returns the aggregation network
    applied to the rows [x_n, mean over the edges (n -> j) of
    msg([x_n, x_j, pos_j - pos_n])]. *)
Theorem X2_mpnn_forward_node_by_node :
  forall (msg aggr_n : matrix T -> matrix T) (x : tensor T) (ei : edge_index)
         (pos : matrix T) (wm : nat -> nat) (fm : list T -> list T),
    Torch.dim x <= 2 ->
    Torch.size0 x = Torch.nrows pos ->
    Spec.edges_in_range (Torch.size0 x) ei = true ->
    (forall m, msg m = {| ncols := wm (ncols m); rows := map fm (rows m) |}) ->
    MPNNModel.forward (MPNNModel.init msg aggr_n) x ei pos
    = Ok (aggr_n
            (Torch.hstack (Node.features_matrix x)
               (Node.aggregated Mean
                  (wm (Node.feature_width x + (Node.feature_width x + ncols pos)))
                  (Torch.size0 x)
                  (fun e => fm (Spec.position_input x pos e)) ei))).
Proof.
  intros msg aggr_n x ei pos wm fm Hd Hn E Hm.
  unfold MPNNModel.forward, MPNNModel.init, long. simpl MPNNModel.L1.
  rewrite (base_forward_closed _ x ei pos wm fm); [reflexivity | | exact Hm].
  unfold Spec.valid_input. rewrite E.
  apply Nat.leb_le in Hd. apply Nat.eqb_eq in Hn. now rewrite Hd, Hn.
Qed.

Lemma nth_error_seq0 (N n : nat) :
  nth_error (seq 0 N) n = if n <? N then Some n else None.
Proof.
  destruct (n <? N) eqn:L.
  - apply Nat.ltb_lt in L.
    rewrite (nth_error_nth' _ 0) by (now rewrite length_seq).
    now rewrite seq_nth.
  - apply Nat.ltb_ge in L. apply nth_error_None. now rewrite length_seq.
Qed.

Lemma nth_error_zip_with_both {A B C : Type} (f : A -> B -> C) (l : list A)
    (l' : list B) (n : nat) :
  nth_error (zip_with f l l') n
  = match nth_error l n, nth_error l' n with
    | Some a, Some b => Some (f a b)
    | _, _ => None
    end.
Proof.
  revert l l'; induction n as [| n IH]; intros [| a l] [| b l']; simpl;
    try reflexivity.
  - now destruct (nth_error l n).
  - apply IH.
Qed.

Lemma nth_error_zip_with_congr {A B C : Type} (f : A -> B -> C) (l : list A)
    (l1 l2 : list B) (n : nat) :
  nth_error l1 n = nth_error l2 n ->
  nth_error (zip_with f l l1) n = nth_error (zip_with f l l2) n.
Proof.
  intros E. now rewrite !nth_error_zip_with_both, E.
Qed.

Lemma aggregated_row_congr (r : reducer) (W N : nat) (h : Z * Z -> list T)
    (ei ei' : edge_index) (n : nat) :
  Node.edges_from n ei = Node.edges_from n ei' ->
  nth_error (rows (Node.aggregated r W N h ei)) n
  = nth_error (rows (Node.aggregated r W N h ei')) n.
Proof.
  intros E. unfold Node.aggregated. simpl.
  rewrite !nth_error_map, nth_error_seq0.
  destruct (n <? N); simpl; [now rewrite E | reflexivity].
Qed.

(** X3: the output row of a node depends on the edge list only through the
    edges listed with this node first: two valid edge lists with the same such
    edges give the same row, whatever the other edges are. *)
Theorem X3_base_row_depends_on_own_edges :
  forall (self : EdgeConv T) (x : tensor T) (ei ei' : edge_index) (pos : matrix T)
         (n : nat),
    Spec.valid_input self x ei pos = true ->
    Spec.valid_input self x ei' pos = true ->
    Spec.rowwise (msg_net self) ->
    Spec.rowwise (aggr_net self) ->
    Node.edges_from n ei = Node.edges_from n ei' ->
    exists out out',
      EdgeConvBase.forward self x ei pos = Ok out
      /\ EdgeConvBase.forward self x ei' pos = Ok out'
      /\ nth_error (rows out) n = nth_error (rows out') n.
Proof.
  intros self x ei ei' pos n V V' (wm & fm & Hm) (wa & fa & Ha) E.
  rewrite (base_forward_closed self x ei pos wm fm V Hm).
  rewrite (base_forward_closed self x ei' pos wm fm V' Hm).
  do 2 eexists. split; [reflexivity |]. split; [reflexivity |].
  cbv zeta. rewrite !Ha. simpl rows. rewrite !nth_error_map. f_equal.
  destruct (self_val self).
  - unfold Torch.hstack. simpl rows.
    apply nth_error_zip_with_congr, aggregated_row_congr, E.
  - apply aggregated_row_congr, E.
Qed.

(** X4: in mode "radial" the angle needs two position columns: on gathered
    positions of one shape with fewer, message raises IndexError whatever the
    features are, and so does forward on features of rank 1 or 2 once the rows
    are gathered. *)
Theorem X4_radial_needs_two_coordinates :
  forall self : EdgeConv T,
    neighbor_loc self = "radial"%string ->
    (forall x_i x_j pos_i pos_j,
        ncols pos_i = ncols pos_j ->
        Torch.nrows pos_i = Torch.nrows pos_j ->
        ncols pos_j < 2 ->
        EdgeConvBase.message self x_i x_j pos_i pos_j = Err IndexError)
    /\ (forall x ei pos,
          Torch.dim x <= 2 ->
          ncols pos < 2 ->
          Torch.size0 x = Torch.nrows pos ->
          Spec.edges_in_range (Torch.size0 x) ei = true ->
          EdgeConvBase.forward self x ei pos = Err IndexError).
Proof.
  intros self Hr.
  assert (M : forall x_i x_j pos_i pos_j,
             ncols pos_j < 2 ->
             EdgeConvBase.message self x_i x_j pos_i pos_j = Err IndexError).
  { intros x_i x_j pos_i pos_j HD.
    unfold EdgeConvBase.message, EdgeConvBase.message_inputs. rewrite Hr.
    simpl String.eqb. cbv zeta. unfold Torch.select_col. simpl ncols.
    assert (L : (1 <? ncols pos_j) = false) by (apply Nat.ltb_ge; lia).
    now rewrite L. }
  split; [intros x_i x_j pos_i pos_j _ _; apply M |].
  intros x ei pos _ HD Hn E. unfold EdgeConvBase.forward.
  set (x' := if Torch.dim x =? 1 then Torch.unsqueeze_last x else x).
  assert (Hs : Torch.size0 x' = Torch.size0 x) by (unfold x'; now destruct (_ =? _)).
  rewrite <- Hs in Hn, E.
  unfold EdgeConvBase.propagate. rewrite (base_collect_ok x' ei pos Hn E). simpl bind.
  now rewrite M.
Qed.

(** X5: message refuses features of rank 3 or more: on gathered positions
    of one shape, in every known mode, the concatenation with the rank-2
    position terms raises RuntimeError. *)
Theorem X5_rank3_features_are_refused :
  forall (self : EdgeConv T) (x_i x_j : tensor T) (pos_i pos_j : matrix T),
    3 <= Torch.dim x_i ->
    ncols pos_i = ncols pos_j ->
    Torch.nrows pos_i = Torch.nrows pos_j ->
    Spec.known_mode (neighbor_loc self) pos_j = true ->
    EdgeConvBase.message self x_i x_j pos_i pos_j = Err RuntimeError.
Proof.
  intros self x_i x_j pos_i pos_j Hd _ _ K.
  assert (C : forall ts, Torch.cat (x_i :: ts) = Err RuntimeError).
  { intros ts. unfold Torch.dim in Hd. simpl. unfold Torch.as_matrix.
    destruct (item_shape x_i) as [| a [| b s]]; simpl in *; try lia; reflexivity. }
  unfold EdgeConvBase.message, EdgeConvBase.message_inputs.
  unfold Spec.known_mode in K.
  apply orb_true_iff in K as [K | K]; [apply orb_true_iff in K as [K | K] |].
  - rewrite K. cbv zeta. now rewrite C.
  - destruct (neighbor_loc self =? "distance")%string; cbv zeta; [now rewrite C |].
    rewrite K. now rewrite C.
  - apply andb_true_iff in K as [K D]. apply Nat.leb_le in D.
    destruct (neighbor_loc self =? "distance")%string; cbv zeta; [now rewrite C |].
    destruct (neighbor_loc self =? "position")%string; [now rewrite C |].
    rewrite K. unfold Torch.select_col. simpl ncols.
    assert (L1 : (1 <? ncols pos_j) = true) by (apply Nat.ltb_lt; lia).
    assert (L0 : (0 <? ncols pos_j) = true) by (apply Nat.ltb_lt; lia).
    rewrite L1, L0, !bind_unit. cbv beta zeta. now rewrite C.
Qed.

(** X6: with self_val set, update puts the features of each node before its
    aggregate, and raises RuntimeError when the aggregate has not one row per
    node. *)
Theorem X6_base_update_rows :
  forall (self : EdgeConv T) (aggr_out : matrix T) (x : tensor T) (F : nat),
    self_val self = true ->
    item_shape x = [F] ->
    (Torch.nrows aggr_out = Torch.size0 x ->
     EdgeConvBase.update self aggr_out x
     = Ok (aggr_net self (Torch.hstack {| ncols := F; rows := items x |} aggr_out))
     /\ forall n a c,
          nth_error (items x) n = Some a ->
          nth_error (rows aggr_out) n = Some c ->
          nth_error (rows (Torch.hstack {| ncols := F; rows := items x |} aggr_out)) n
          = Some (a ++ c))
    /\ (Torch.nrows aggr_out <> Torch.size0 x ->
        EdgeConvBase.update self aggr_out x = Err RuntimeError).
Proof.
  intros self aggr_out x F Sv HF. split.
  - intros Hn. split.
    + unfold EdgeConvBase.update.
      now rewrite (base_update_inputs_self self aggr_out x F HF Hn Sv).
    + intros n a c Ha Hc. simpl. now apply nth_error_zip_with.
  - intros Hn. unfold EdgeConvBase.update, EdgeConvBase.update_inputs.
    rewrite Sv. unfold Torch.cat, Torch.as_matrix, Torch.of_matrix. rewrite HF.
    simpl. unfold Torch.nrows, Torch.size0 in *. simpl.
    assert (L : (length (items x) =? length (rows aggr_out)) = false)
      by (apply Nat.eqb_neq; congruence).
    now rewrite L.
Qed.

Lemma geom_forward_closed (self : EdgeConv T) (ei : edge_index) (pos : matrix T)
    (wm : nat -> nat) (fm : list T -> list T) :
  Spec.edges_in_range (Torch.nrows pos) ei = true ->
  (forall m, msg_net self m = {| ncols := wm (ncols m); rows := map fm (rows m) |}) ->
  EdgeConvGeom.forward self ei pos
  = Ok (aggr_net self
          (Node.aggregated (aggr self) (wm (1 + ncols pos)) (Torch.nrows pos)
             (fun e => fm (Spec.geometric_input pos e)) ei)).
Proof.
  intros E Hm. unfold EdgeConvGeom.forward, EdgeConvGeom.propagate.
  rewrite (geom_collect_ok ei pos E), bind_unit.
  unfold EdgeConvGeom.message. rewrite geom_inputs, bind_unit, Hm, bind_unit.
  simpl ncols. simpl rows. rewrite map_map, aggregate_gathered, bind_unit.
  reflexivity.
Qed.

Lemma ctx_forward_closed (self : EdgeConv T) (x : tensor T) (ei : edge_index)
    (pos ctx : matrix T) (wm : nat -> nat) (fm : list T -> list T) :
  Torch.dim x <= 2 ->
  Torch.size0 x = Torch.nrows pos ->
  Torch.size0 x = Torch.nrows ctx ->
  Spec.edges_in_range (Torch.size0 x) ei = true ->
  (forall m, msg_net self m = {| ncols := wm (ncols m); rows := map fm (rows m) |}) ->
  EdgeConvWithCtx.forward self x ei pos ctx
  = Ok (aggr_net self
          (Torch.hstack
             (Node.aggregated (aggr self)
                (wm (Node.feature_width x
                     + (Node.feature_width x + (1 + (ncols pos + ncols ctx)))))
                (Torch.size0 x)
                (fun e => fm (Spec.context_input x pos ctx e)) ei)
             ctx)).
Proof.
  intros Hd Hn Hc E Hm.
  destruct (prepared_explicit x Hd) as (x' & Hx' & HF & Hi).
  unfold EdgeConvWithCtx.forward. rewrite Hx'.
  assert (Hs : Torch.size0 x' = Torch.size0 x) by (unfold Torch.size0; now rewrite Hi).
  rewrite <- Hs in Hn, Hc, E.
  unfold EdgeConvWithCtx.propagate.
  rewrite (ctx_collect_ok x' ei pos ctx Hn Hc E), bind_unit.
  unfold EdgeConvWithCtx.message.
  rewrite (ctx_inputs x' ei pos ctx _ HF), bind_unit, Hm, bind_unit.
  simpl ncols. simpl rows. rewrite map_map, aggregate_gathered, bind_unit.
  unfold EdgeConvWithCtx.update.
  rewrite ctx_update_inputs by (now rewrite nrows_aggregated).
  rewrite bind_unit, Hs.
  assert (Hb : Spec.context_input x' pos ctx = Spec.context_input x pos ctx).
  { unfold Spec.context_input, Spec.feature. now rewrite Hi. }
  now rewrite Hb.
Qed.

(** X7: for edges between the nodes and a message network that acts row by
    row, EdgeConvGeom returns the aggregation network applied to the tensor
    with one row per node, the reduction of msg([distance, unit_direction])
    over the edges listed with the node first; no feature and no self value
    enters. *)
Theorem X7_geom_forward_node_by_node :
  forall (self : EdgeConv T) (ei : edge_index) (pos : matrix T)
         (wm : nat -> nat) (fm : list T -> list T),
    Spec.edges_in_range (Torch.nrows pos) ei = true ->
    (forall m, msg_net self m = {| ncols := wm (ncols m); rows := map fm (rows m) |}) ->
    EdgeConvGeom.forward self ei pos
    = Ok (aggr_net self
            (Node.aggregated (aggr self) (wm (1 + ncols pos)) (Torch.nrows pos)
               (fun e => fm (Spec.geometric_input pos e)) ei))
    /\ Torch.nrows
         (Node.aggregated (aggr self) (wm (1 + ncols pos)) (Torch.nrows pos)
            (fun e => fm (Spec.geometric_input pos e)) ei)
       = Torch.nrows pos.
Proof.
  intros self ei pos wm fm E Hm. split.
  - exact (geom_forward_closed self ei pos wm fm E Hm).
  - apply nrows_aggregated.
Qed.

(** X8: on features of rank 1 or 2, positions and contexts with one row per
    node and edges between the nodes, EdgeConvWithCtx returns the aggregation
    network applied to the rows [reduced messages of node n, context_n]: the
    context enters twice, at the first node of each edge in the message and at
    the node itself in the update. *)
Theorem X8_ctx_forward_node_by_node :
  forall (self : EdgeConv T) (x : tensor T) (ei : edge_index) (pos ctx : matrix T)
         (wm : nat -> nat) (fm : list T -> list T),
    Torch.dim x <= 2 ->
    Torch.size0 x = Torch.nrows pos ->
    Torch.size0 x = Torch.nrows ctx ->
    Spec.edges_in_range (Torch.size0 x) ei = true ->
    (forall m, msg_net self m = {| ncols := wm (ncols m); rows := map fm (rows m) |}) ->
    EdgeConvWithCtx.forward self x ei pos ctx
    = Ok (aggr_net self
            (Torch.hstack
               (Node.aggregated (aggr self)
                  (wm (Node.feature_width x
                       + (Node.feature_width x + (1 + (ncols pos + ncols ctx)))))
                  (Torch.size0 x)
                  (fun e => fm (Spec.context_input x pos ctx e)) ei)
               ctx)).
Proof.
  exact ctx_forward_closed.
Qed.

Lemma m3_forward_closed (m : M3Model.t) (x : tensor T) (ei : edge_index)
    (pos : matrix T) (wm1 wa1 wm2 : nat -> nat) (fm1 fa1 fm2 : list T -> list T) :
  Torch.dim x <= 2 ->
  Torch.size0 x = Torch.nrows pos ->
  Spec.edges_in_range (Torch.size0 x) ei = true ->
  (forall a, msg_net (M3Model.L1 m) a
             = {| ncols := wm1 (ncols a); rows := map fm1 (rows a) |}) ->
  (forall a, aggr_net (M3Model.L1 m) a
             = {| ncols := wa1 (ncols a); rows := map fa1 (rows a) |}) ->
  (forall a, msg_net (M3Model.L2 m) a
             = {| ncols := wm2 (ncols a); rows := map fm2 (rows a) |}) ->
  let context :=
    aggr_net (M3Model.L1 m)
      (Node.aggregated (aggr (M3Model.L1 m)) (wm1 (1 + ncols pos)) (Torch.nrows pos)
         (fun e => fm1 (Spec.geometric_input pos e)) ei) in
  Torch.nrows context = Torch.size0 x
  /\ M3Model.forward m x ei pos
     = Ok (aggr_net (M3Model.L2 m)
             (Torch.hstack
                (Node.aggregated (aggr (M3Model.L2 m))
                   (wm2 (Node.feature_width x
                         + (Node.feature_width x + (1 + (ncols pos + ncols context)))))
                   (Torch.size0 x)
                   (fun e => fm2 (Spec.context_input x pos context e)) ei)
                context)).
Proof.
  intros Hd Hn E Hm1 Ha1 Hm2 context.
  assert (Hc : Torch.nrows context = Torch.size0 x).
  { unfold context. rewrite Ha1. unfold Torch.nrows. cbn [rows].
    now rewrite length_map, length_rows_aggregated. }
  split; [exact Hc |].
  unfold M3Model.forward, long.
  assert (Ep := E). rewrite Hn in Ep.
  rewrite (geom_forward_closed _ ei pos wm1 fm1 Ep Hm1), bind_unit.
  fold context.
  now rewrite (ctx_forward_closed _ x ei pos context wm2 fm2 Hd Hn (eq_sym Hc) E Hm2).
Qed.

(** X9: on features of rank 1 or 2 with one row per node, as many positions
    and edges between the nodes, with networks that act row by row, M3Model
    returns a tensor with one row per node: the context of the first layer has
    one row per node, which is what the second layer asks of it. *)
Theorem X9_m3_forward_succeeds :
  forall (m : M3Model.t) (x : tensor T) (ei : edge_index) (pos : matrix T),
    Torch.dim x <= 2 ->
    Torch.size0 x = Torch.nrows pos ->
    Spec.edges_in_range (Torch.size0 x) ei = true ->
    Spec.rowwise (msg_net (M3Model.L1 m)) ->
    Spec.rowwise (aggr_net (M3Model.L1 m)) ->
    Spec.rowwise (msg_net (M3Model.L2 m)) ->
    Spec.rowwise (aggr_net (M3Model.L2 m)) ->
    exists context out,
      EdgeConvGeom.forward (M3Model.L1 m) ei pos = Ok context
      /\ Torch.nrows context = Torch.size0 x
      /\ M3Model.forward m x ei pos = Ok out
      /\ EdgeConvWithCtx.forward (M3Model.L2 m) x ei pos context = Ok out
      /\ Torch.nrows out = Torch.size0 x.
Proof.
  intros m x ei pos Hd Hn E (wm1 & fm1 & Hm1) (wa1 & fa1 & Ha1) (wm2 & fm2 & Hm2)
    (wa2 & fa2 & Ha2).
  destruct (m3_forward_closed m x ei pos wm1 wa1 wm2 fm1 fa1 fm2 Hd Hn E Hm1 Ha1 Hm2)
    as [Hc Hf].
  assert (Ep := E). rewrite Hn in Ep.
  do 2 eexists. split; [exact (geom_forward_closed _ ei pos wm1 fm1 Ep Hm1) |].
  split; [exact Hc |]. split; [exact Hf |]. split.
  - exact (ctx_forward_closed _ x ei pos _ wm2 fm2 Hd Hn (eq_sym Hc) E Hm2).
  - rewrite Ha2. unfold Torch.nrows, Torch.hstack in *. cbv zeta in Hc. cbn [rows].
    rewrite length_map, zip_with_length, length_rows_aggregated, Hc.
    apply Nat.min_id.
Qed.

Ltac no_name_error E :=
  repeat match type of E with
         | bind _ _ = Err _ => apply bind_err in E as [E | [? [_ E]]]
         | (let '(_, _) := ?p in _) = Err _ => destruct p
         | Torch.index_select _ _ = Err _ => apply index_select_error in E
         | Torch.cat _ = Err _ => apply cat_error in E
         | (if ?c then _ else _) = Err _ => destruct c
         end;
  try discriminate E.

Lemma geom_never_name_error (self : EdgeConv T) (ei : edge_index) (pos : matrix T) :
  EdgeConvGeom.forward self ei pos <> Err NameError.
Proof.
  intros E.
  unfold EdgeConvGeom.forward, EdgeConvGeom.propagate, EdgeConvGeom.collect,
    EdgeConvGeom.message, EdgeConvGeom.message_inputs, EdgeConvGeom.update,
    MessagePassing.lift_matrix, MessagePassing.aggregate in E.
  no_name_error E.
Qed.

Lemma ctx_never_name_error (self : EdgeConv T) (x : tensor T) (ei : edge_index)
    (pos ctx : matrix T) :
  EdgeConvWithCtx.forward self x ei pos ctx <> Err NameError.
Proof.
  intros E.
  unfold EdgeConvWithCtx.forward, EdgeConvWithCtx.propagate, EdgeConvWithCtx.collect,
    EdgeConvWithCtx.message, EdgeConvWithCtx.message_inputs, EdgeConvWithCtx.update,
    EdgeConvWithCtx.update_inputs, MessagePassing.lift, MessagePassing.lift_matrix,
    MessagePassing.set_size, MessagePassing.aggregate in E.
  no_name_error E.
Qed.

Lemma position_never_name_error (self : EdgeConv T) (x : tensor T) (ei : edge_index)
    (pos : matrix T) :
  neighbor_loc self = "position"%string ->
  EdgeConvBase.forward self x ei pos <> Err NameError.
Proof.
  intros Hp E.
  unfold EdgeConvBase.forward, EdgeConvBase.propagate, EdgeConvBase.collect,
    EdgeConvBase.message, EdgeConvBase.message_inputs, EdgeConvBase.update,
    EdgeConvBase.update_inputs, MessagePassing.lift, MessagePassing.lift_matrix,
    MessagePassing.set_size, MessagePassing.aggregate in E.
  rewrite Hp in E. simpl String.eqb in E. cbv iota in E.
  no_name_error E.
Qed.

(** X10: neither model can end in the NameError of an unknown mode:
    MPNNModel builds its layer with the mode "position", and the two layers of
    M3Model compute their messages without reading the mode, whatever mode
    they hold. *)
Theorem X10_models_never_raise_name_error :
  forall (msg aggr_n : matrix T -> matrix T) (m : M3Model.t) (x : tensor T)
         (ei : edge_index) (pos : matrix T),
    MPNNModel.forward (MPNNModel.init msg aggr_n) x ei pos <> Err NameError
    /\ M3Model.forward m x ei pos <> Err NameError.
Proof.
  intros msg aggr_n m x ei pos. split.
  - unfold MPNNModel.forward. now apply position_never_name_error.
  - unfold M3Model.forward. intros E.
    apply bind_err in E as [E | [context [_ E]]].
    + now apply geom_never_name_error in E.
    + now apply ctx_never_name_error in E.
Qed.

(** X11: with an addition of scalars that is commutative and associative and
    networks that act row by row, M3Model returns the same tensor for every
    reordering of the edge list. *)
Theorem X11_m3_edge_order :
  forall (m : M3Model.t) (x : tensor T) (ei ei' : edge_index) (pos : matrix T),
    (forall a b : T, tadd a b = tadd b a) ->
    (forall a b c : T, tadd a (tadd b c) = tadd (tadd a b) c) ->
    Spec.rowwise (msg_net (M3Model.L1 m)) ->
    Spec.rowwise (aggr_net (M3Model.L1 m)) ->
    Spec.rowwise (msg_net (M3Model.L2 m)) ->
    Torch.dim x <= 2 ->
    Torch.size0 x = Torch.nrows pos ->
    Spec.edges_in_range (Torch.size0 x) ei = true ->
    Permutation ei ei' ->
    M3Model.forward m x ei' pos = M3Model.forward m x ei pos.
Proof.
  intros m x ei ei' pos Hcomm Hassoc (wm1 & fm1 & Hm1) (wa1 & fa1 & Ha1)
    (wm2 & fm2 & Hm2) Hd Hn E P.
  assert (E' := edges_in_range_permutation _ _ _ P E).
  destruct (m3_forward_closed m x ei pos wm1 wa1 wm2 fm1 fa1 fm2 Hd Hn E Hm1 Ha1 Hm2)
    as [_ ->].
  destruct (m3_forward_closed m x ei' pos wm1 wa1 wm2 fm1 fa1 fm2 Hd Hn E' Hm1 Ha1 Hm2)
    as [_ ->].
  rewrite <- (aggregated_permutation (aggr (M3Model.L1 m)) _ _ _ ei ei' Hcomm Hassoc P).
  now rewrite <- (aggregated_permutation (aggr (M3Model.L2 m)) _ _ _ ei ei' Hcomm Hassoc P).
Qed.

Lemma in_range_lt (n : nat) (k : Z) : in_range n k = true -> Z.to_nat k < n.
Proof.
  unfold in_range. rewrite andb_true_iff, Z.leb_le, Z.ltb_lt. lia.
Qed.

Lemma index_select_map (f : list T -> list T) (l : list (list T)) (idx : list Z) :
  Torch.index_select (map f l) idx
  = (r <- Torch.index_select l idx ;; Ok (map f r)).
Proof.
  induction idx as [| k idx IH]; simpl; [reflexivity |].
  rewrite length_map. destruct (in_range (length l) k) eqn:Ek; [| reflexivity].
  rewrite IH. destruct (Torch.index_select l idx) as [r | e]; simpl; [| reflexivity].
  do 2 f_equal.
  rewrite (nth_indep _ [] (f [])) by (rewrite length_map; now apply in_range_lt).
  apply map_nth.
Qed.

Lemma index_select_incl (l : list (list T)) (idx : list Z) (r : list (list T)) :
  Torch.index_select l idx = Ok r -> forall a, In a r -> In a l.
Proof.
  revert r; induction idx as [| k idx IH]; simpl; intros r.
  - intros [= <-] a [].
  - destruct (in_range (length l) k) eqn:Ek; [| discriminate].
    destruct (Torch.index_select l idx) as [r' | e]; simpl; [| discriminate].
    intros [= <-] a [<- | Ha].
    + apply nth_In. now apply in_range_lt.
    + now apply (IH r').
Qed.

Lemma lift_matrix_translate (t : list T) (pos : matrix T) (idx : list Z) :
  MessagePassing.lift_matrix (Node.translate t pos) idx
  = (m <- MessagePassing.lift_matrix pos idx ;; Ok (Node.translate t m)).
Proof.
  unfold MessagePassing.lift_matrix, Node.translate. simpl.
  rewrite index_select_map.
  now destruct (Torch.index_select (rows pos) idx).
Qed.

Lemma lift_matrix_well_formed (t : list T) (pos : matrix T) (idx : list Z)
    (m : matrix T) :
  Node.well_formed pos = true ->
  length t = ncols pos ->
  MessagePassing.lift_matrix pos idx = Ok m ->
  forall r, In r (rows m) -> length r = length t.
Proof.
  intros W Ht L r Hr. unfold MessagePassing.lift_matrix in L.
  destruct (Torch.index_select (rows pos) idx) as [rs | e] eqn:S; [| discriminate].
  injection L as <-. simpl in Hr.
  unfold Node.well_formed in W.
  assert (Hl := proj1 (forallb_forall _ _) W r (index_select_incl _ _ _ S r Hr)).
  apply Nat.eqb_eq in Hl. congruence.
Qed.

Section Translation.
Hypothesis tsub_tadd : forall a b c : T, tsub (tadd a c) (tadd b c) = tsub a b.

Lemma vsub_translate (t p q : list T) :
  length p = length t -> length q = length t ->
  Torch.vsub (Torch.vadd p t) (Torch.vadd q t) = Torch.vsub p q.
Proof.
  unfold Torch.vsub, Torch.vadd.
  revert p q; induction t as [| c t IH]; intros [| a p] [| b q]; simpl;
    try discriminate; try reflexivity.
  intros [= Hp] [= Hq]. now rewrite tsub_tadd, IH.
Qed.

Lemma sub_translate (t : list T) (a b : matrix T) :
  (forall r, In r (rows a) -> length r = length t) ->
  (forall r, In r (rows b) -> length r = length t) ->
  Torch.sub (Node.translate t a) (Node.translate t b) = Torch.sub a b.
Proof.
  intros Ha Hb. unfold Torch.sub, Node.translate. simpl. f_equal.
  destruct a as [wa ra], b as [wb rb]. simpl in *.
  revert rb Hb; induction ra as [| p ra IH]; intros [| q rb] Hb; simpl;
    try reflexivity.
  rewrite vsub_translate; [| apply Ha; now left | apply Hb; now left].
  rewrite IH; [reflexivity | |]; intros r Hr; [apply Ha | apply Hb]; now right.
Qed.

Lemma base_forward_translate (self : EdgeConv T) (x : tensor T) (ei : edge_index)
    (pos : matrix T) (t : list T) :
  Node.well_formed pos = true ->
  length t = ncols pos ->
  EdgeConvBase.forward self x ei (Node.translate t pos)
  = EdgeConvBase.forward self x ei pos.
Proof.
  intros W Ht. unfold EdgeConvBase.forward.
  set (x' := if Torch.dim x =? 1 then Torch.unsqueeze_last x else x).
  unfold EdgeConvBase.propagate, EdgeConvBase.collect.
  rewrite !lift_matrix_translate.
  replace (Torch.nrows (Node.translate t pos)) with (Torch.nrows pos)
    by (unfold Torch.nrows, Node.translate; simpl; now rewrite length_map).
  destruct (MessagePassing.lift x' (row0 ei)) as [x_i |]; [| reflexivity].
  destruct (MessagePassing.lift x' (row1 ei)) as [x_j |]; [| reflexivity].
  destruct (MessagePassing.set_size (Torch.size0 x') (Torch.nrows pos)); [| reflexivity].
  destruct (MessagePassing.lift_matrix pos (row0 ei)) as [pos_i |] eqn:Li;
    [| reflexivity].
  destruct (MessagePassing.lift_matrix pos (row1 ei)) as [pos_j |] eqn:Lj;
    [| reflexivity].
  cbn [bind].
  unfold EdgeConvBase.message, EdgeConvBase.message_inputs.
  rewrite (sub_translate t pos_j pos_i)
    by (eapply lift_matrix_well_formed; eassumption).
  reflexivity.
Qed.

Lemma geom_forward_translate (self : EdgeConv T) (ei : edge_index) (pos : matrix T)
    (t : list T) :
  Node.well_formed pos = true ->
  length t = ncols pos ->
  EdgeConvGeom.forward self ei (Node.translate t pos) = EdgeConvGeom.forward self ei pos.
Proof.
  intros W Ht. unfold EdgeConvGeom.forward, EdgeConvGeom.propagate, EdgeConvGeom.collect.
  rewrite !lift_matrix_translate.
  replace (Torch.nrows (Node.translate t pos)) with (Torch.nrows pos)
    by (unfold Torch.nrows, Node.translate; simpl; now rewrite length_map).
  destruct (MessagePassing.lift_matrix pos (row0 ei)) as [pos_i |] eqn:Li;
    [| reflexivity].
  destruct (MessagePassing.lift_matrix pos (row1 ei)) as [pos_j |] eqn:Lj;
    [| reflexivity].
  cbn [bind].
  unfold EdgeConvGeom.message, EdgeConvGeom.message_inputs.
  rewrite (sub_translate t pos_j pos_i)
    by (eapply lift_matrix_well_formed; eassumption).
  reflexivity.
Qed.

Lemma ctx_forward_translate (self : EdgeConv T) (x : tensor T) (ei : edge_index)
    (pos ctx : matrix T) (t : list T) :
  Node.well_formed pos = true ->
  length t = ncols pos ->
  EdgeConvWithCtx.forward self x ei (Node.translate t pos) ctx
  = EdgeConvWithCtx.forward self x ei pos ctx.
Proof.
  intros W Ht. unfold EdgeConvWithCtx.forward.
  set (x' := if Torch.dim x =? 1 then Torch.unsqueeze_last x else x).
  unfold EdgeConvWithCtx.propagate, EdgeConvWithCtx.collect.
  rewrite !lift_matrix_translate.
  replace (Torch.nrows (Node.translate t pos)) with (Torch.nrows pos)
    by (unfold Torch.nrows, Node.translate; simpl; now rewrite length_map).
  destruct (MessagePassing.lift x' (row0 ei)) as [x_i |]; [| reflexivity].
  destruct (MessagePassing.lift x' (row1 ei)) as [x_j |]; [| reflexivity].
  destruct (MessagePassing.set_size (Torch.size0 x') (Torch.nrows pos)); [| reflexivity].
  destruct (MessagePassing.lift_matrix pos (row0 ei)) as [pos_i |] eqn:Li;
    [| reflexivity].
  destruct (MessagePassing.lift_matrix pos (row1 ei)) as [pos_j |] eqn:Lj;
    [| reflexivity].
  destruct (MessagePassing.set_size (Torch.size0 x') (Torch.nrows ctx)); [| reflexivity].
  destruct (MessagePassing.lift_matrix ctx (row0 ei)) as [ctx_i |]; [| reflexivity].
  cbn [bind].
  unfold EdgeConvWithCtx.message, EdgeConvWithCtx.message_inputs.
  rewrite (sub_translate t pos_j pos_i)
    by (eapply lift_matrix_well_formed; eassumption).
  reflexivity.
Qed.
End Translation.

(** X12: the generic convolution reads the positions only through the
    differences position_j - position_i: where (a + c) - (b + c) = a - b holds
    for the scalars, moving every position by the same vector changes neither
    the result of EdgeConvBase.forward nor that of MPNNModel, in every mode and
    on every input, failing ones included. *)
Theorem X12_base_translation_invariant :
  forall (self : EdgeConv T) (msg aggr_n : matrix T -> matrix T) (x : tensor T)
         (ei : edge_index) (pos : matrix T) (t : list T),
    (forall a b c : T, tsub (tadd a c) (tadd b c) = tsub a b) ->
    Node.well_formed pos = true ->
    length t = ncols pos ->
    EdgeConvBase.forward self x ei (Node.translate t pos)
    = EdgeConvBase.forward self x ei pos
    /\ MPNNModel.forward (MPNNModel.init msg aggr_n) x ei (Node.translate t pos)
       = MPNNModel.forward (MPNNModel.init msg aggr_n) x ei pos.
Proof.
  intros self msg aggr_n x ei pos t Hs W Ht. split.
  - now apply base_forward_translate.
  - unfold MPNNModel.forward. now apply base_forward_translate.
Qed.

(** X13: under the same law of the scalars, M3Model returns the same result
    when every position is moved by the same vector: both of its layers read
    the positions only through position_j - position_i. *)
Theorem X13_m3_translation_invariant :
  forall (m : M3Model.t) (x : tensor T) (ei : edge_index) (pos : matrix T)
         (t : list T),
    (forall a b c : T, tsub (tadd a c) (tadd b c) = tsub a b) ->
    Node.well_formed pos = true ->
    length t = ncols pos ->
    M3Model.forward m x ei (Node.translate t pos) = M3Model.forward m x ei pos.
Proof.
  intros m x ei pos t Hs W Ht. unfold M3Model.forward.
  rewrite (geom_forward_translate Hs _ _ _ _ W Ht).
  destruct (EdgeConvGeom.forward (M3Model.L1 m) (long ei) pos) as [context |];
    [| reflexivity].
  cbn [bind]. now apply ctx_forward_translate.
Qed.

(** X14: the result of M3Model is fixed by the four networks and the two
    reducers: two models that agree on them return the same result on every
    input, whatever neighbor_loc and self_val their layers hold. *)
Theorem X14_m3_determined_by_networks :
  forall (m m' : M3Model.t) (x : tensor T) (ei : edge_index) (pos : matrix T),
    msg_net (M3Model.L1 m) = msg_net (M3Model.L1 m') ->
    aggr_net (M3Model.L1 m) = aggr_net (M3Model.L1 m') ->
    aggr (M3Model.L1 m) = aggr (M3Model.L1 m') ->
    msg_net (M3Model.L2 m) = msg_net (M3Model.L2 m') ->
    aggr_net (M3Model.L2 m) = aggr_net (M3Model.L2 m') ->
    aggr (M3Model.L2 m) = aggr (M3Model.L2 m') ->
    M3Model.forward m x ei pos = M3Model.forward m' x ei pos.
Proof.
  intros [[m1 a1 r1 n1 s1] [m2 a2 r2 n2 s2]] [[m1' a1' r1' n1' s1'] [m2' a2' r2' n2' s2']]
    x ei pos. simpl. intros -> -> -> -> -> ->. reflexivity.
Qed.
End Layers.

(** ** The same at concrete inputs *)

Lemma identity_explicit :
  forall m : matrix R,
    identity m = {| ncols := (fun w => w) (ncols m); rows := map (fun r => r) (rows m) |}.
Proof.
  intros [w rs]. unfold identity. simpl. now rewrite map_id.
Qed.

Lemma real_shift_law : forall a b c : R, tsub (tadd a c) (tadd b c) = tsub a b.
Proof.
  intros a b c. simpl. lra.
Qed.

Lemma X1_witness :
  EdgeConvBase.forward (layer3 "radial" false) x3 edges3 pos3
  = Ok (identity (Node.aggregated Mean 4 3 (Spec.radial_input x3 pos3) edges3)).
Proof.
  exact (X1_base_forward_node_by_node (layer3 "radial" false) x3 edges3 pos3
           (fun w => w) (fun r => r) eq_refl identity_explicit).
Defined.

Lemma X2_witness :
  MPNNModel.forward (MPNNModel.init identity identity) x3 edges3 pos3
  = Ok (identity
          (Torch.hstack (Node.features_matrix x3)
             (Node.aggregated Mean 4 3 (Spec.position_input x3 pos3) edges3))).
Proof.
  exact (X2_mpnn_forward_node_by_node identity identity x3 edges3 pos3
           (fun w => w) (fun r => r) (le_S 1 1 (le_n 1)) eq_refl eq_refl
           identity_explicit).
Defined.

Lemma X3_witness :
  exists out out',
    EdgeConvBase.forward (layer3 "position" true) x3 edges3 pos3 = Ok out
    /\ EdgeConvBase.forward (layer3 "position" true) x3 edges3_more pos3 = Ok out'
    /\ nth_error (rows out) 0 = nth_error (rows out') 0.
Proof.
  exact (X3_base_row_depends_on_own_edges (layer3 "position" true) x3 edges3
           edges3_more pos3 0 eq_refl eq_refl identity_rowwise identity_rowwise eq_refl).
Defined.

Lemma X4_witness :
  EdgeConvBase.forward (layer3 "radial" true) x3 edges3 pos_line = Err IndexError.
Proof.
  destruct (X4_radial_needs_two_coordinates (layer3 "radial" true) eq_refl) as [_ F].
  apply F; [exact (le_S 1 1 (le_n 1)) | apply le_n | reflexivity | reflexivity].
Defined.

Lemma X5_witness :
  EdgeConvBase.message (layer3 "position" true) x_rank3 x_rank3 pos3 pos3
  = Err RuntimeError.
Proof.
  apply X5_rank3_features_are_refused; [apply le_n | reflexivity..].
Defined.

Lemma X6_witness :
  EdgeConvBase.update (layer3 "position" true) ctx3 (Torch.unsqueeze_last x3)
  = Ok (identity (Torch.hstack {| ncols := 1; rows := [[5]; [7]; [9]]%R |} ctx3))
  /\ EdgeConvBase.update (layer3 "position" true) ctx_twin (Torch.unsqueeze_last x3)
     = Err RuntimeError.
Proof.
  split.
  - destruct (X6_base_update_rows (layer3 "position" true) ctx3
                (Torch.unsqueeze_last x3) 1 eq_refl eq_refl) as [A _].
    destruct (A eq_refl) as [U _]. exact U.
  - destruct (X6_base_update_rows (layer3 "position" true) ctx_twin
                (Torch.unsqueeze_last x3) 1 eq_refl eq_refl) as [_ B].
    apply B. discriminate.
Defined.

Lemma X7_witness :
  EdgeConvGeom.forward (layer3 "position" true) edges3 pos3
  = Ok (identity (Node.aggregated Mean 3 3 (Spec.geometric_input pos3) edges3)).
Proof.
  destruct (X7_geom_forward_node_by_node (layer3 "position" true) edges3 pos3
              (fun w => w) (fun r => r) eq_refl identity_explicit) as [F _].
  exact F.
Defined.

Lemma X8_witness :
  EdgeConvWithCtx.forward (layer3 "position" true) x3 edges3 pos3 ctx3
  = Ok (identity
          (Torch.hstack
             (Node.aggregated Mean 6 3 (Spec.context_input x3 pos3 ctx3) edges3) ctx3)).
Proof.
  exact (X8_ctx_forward_node_by_node (layer3 "position" true) x3 edges3 pos3 ctx3
           (fun w => w) (fun r => r) (le_S 1 1 (le_n 1)) eq_refl eq_refl eq_refl
           identity_explicit).
Defined.

Lemma X9_witness :
  exists context out,
    EdgeConvGeom.forward (M3Model.L1 m3) edges3 pos3 = Ok context
    /\ Torch.nrows context = 3
    /\ M3Model.forward m3 x3 edges3 pos3 = Ok out
    /\ EdgeConvWithCtx.forward (M3Model.L2 m3) x3 edges3 pos3 context = Ok out
    /\ Torch.nrows out = 3.
Proof.
  exact (X9_m3_forward_succeeds m3 x3 edges3 pos3 (le_S 1 1 (le_n 1)) eq_refl eq_refl
           identity_rowwise identity_rowwise identity_rowwise identity_rowwise).
Defined.

Lemma X11_witness :
  M3Model.forward m3 x3 edges3_swapped pos3 = M3Model.forward m3 x3 edges3 pos3.
Proof.
  apply X11_m3_edge_order.
  - exact Rplus_comm.
  - intros a b c. symmetry. apply Rplus_assoc.
  - exact identity_rowwise.
  - exact identity_rowwise.
  - exact identity_rowwise.
  - exact (le_S 1 1 (le_n 1)).
  - reflexivity.
  - reflexivity.
  - apply perm_swap.
Defined.

Lemma X12_witness :
  EdgeConvBase.forward (layer3 "radial" true) x3 edges3 (Node.translate shift pos3)
  = EdgeConvBase.forward (layer3 "radial" true) x3 edges3 pos3.
Proof.
  destruct (X12_base_translation_invariant (layer3 "radial" true) identity identity
              x3 edges3 pos3 shift real_shift_law eq_refl eq_refl) as [F _].
  exact F.
Defined.

Lemma X13_witness :
  M3Model.forward m3 x3 edges3 (Node.translate shift pos3)
  = M3Model.forward m3 x3 edges3 pos3.
Proof.
  exact (X13_m3_translation_invariant m3 x3 edges3 pos3 shift real_shift_law
           eq_refl eq_refl).
Defined.

Lemma X14_witness :
  M3Model.forward m3 x3 edges3 pos3 = M3Model.forward m3_polar x3 edges3 pos3.
Proof.
  exact (X14_m3_determined_by_networks m3 m3_polar x3 edges3 pos3
           eq_refl eq_refl eq_refl eq_refl eq_refl eq_refl).
Defined.

Lemma C6_witness :
  exists out,
    EdgeConvBase.forward (layer3 "position" true) x3 edges3 pos3 = Ok out
    /\ Torch.nrows out = 3
    /\ EdgeConvBase.forward (layer3 "position" true) x3 edges3_swapped pos3 = Ok out.
Proof.
  destruct (C6_rows_and_edge_order (layer3 "position" true) x3 edges3 pos3
              (fun w => w) (fun r => r) eq_refl identity_explicit identity_rowwise)
    as (out & Hf & _ & Hn & Hp).
  exists out. split; [exact Hf |]. split; [exact Hn |].
  apply Hp.
  - exact Rplus_comm.
  - intros a b c. symmetry. apply Rplus_assoc.
  - apply perm_swap.
Defined.

Lemma same_rowwise : Spec.rowwise FloatArith.same.
Proof.
  exists (fun w => w), (fun r => r). intros [w rs]. simpl.
  unfold FloatArith.same. now rewrite map_id.
Qed.

(** C6 as it is written fails on binary64 tensors: node 0 has the three
    edges to the nodes with the features 2^53, 1 and -2^53; listed in this
    order the sum of the neighbour features rounds to 0, with the last two
    edges exchanged it is 1, and the mean in row 0 differs. *)
Lemma C6_counterexample :
  Spec.valid_input FloatArith.layer_mean FloatArith.x_big FloatArith.edges_a
    FloatArith.pos_origin = true
  /\ Spec.rowwise (msg_net FloatArith.layer_mean)
  /\ Spec.rowwise (aggr_net FloatArith.layer_mean)
  /\ Permutation FloatArith.edges_a FloatArith.edges_b
  /\ exists out out',
       (forall atan2,
           @EdgeConvBase.forward _ (FloatArith.FScalar atan2) FloatArith.layer_mean
             FloatArith.x_big FloatArith.edges_a FloatArith.pos_origin = Ok out
           /\ @EdgeConvBase.forward _ (FloatArith.FScalar atan2) FloatArith.layer_mean
                FloatArith.x_big FloatArith.edges_b FloatArith.pos_origin = Ok out')
       /\ FloatArith.entry_is_zero out 0 2 = true
       /\ FloatArith.entry_is_zero out' 0 2 = false
       /\ out <> out'.
Proof.
  split; [reflexivity |]. split; [exact same_rowwise |]. split; [exact same_rowwise |].
  split; [apply perm_skip, perm_swap |].
  do 2 eexists. split; [intros atan2; split; vm_compute; reflexivity |].
  split; [vm_compute; reflexivity |]. split; [vm_compute; reflexivity |].
  intros E.
  apply (f_equal (fun m => FloatArith.entry_is_zero m 0 2)) in E.
  vm_compute in E. discriminate E.
Qed.
